(** * Styx: the resource-identity resolution engine of pkg/crossplane

    A shallow embedding of [pkg/crossplane/crossplane.go]: the confidence
    scorer ([evaluateResourceMatchForNamespace]), the match resolver
    ([FindCrossplaneResourcesForNamespaceWithConfidence],
    [FindCrossplaneResourcesForNamespaceWithNetworking],
    [sortMatchesByConfidence]), the network index ([BuildNetworkMap],
    [extractIPAddresses]) and the label applier ([ApplyLabelsToResource]).

    Conventions of the embedding.
    - [float64] is Rocq's primitive binary64 type; every Go operation is one
      correctly rounded IEEE-754 operation (no fused multiply-add), and a
      decimal constant is the nearest binary64 number.
    - A Go [string] is a [string] of bytes.  [strings.ToLower] and
      [strings.TrimSpace] are modelled on ASCII, the alphabet of Kubernetes
      names and label values.
    - A Go map that the code ranges over is an association list whose
      order is the enumeration order of that run; keys are looked up
      with [Index].  The bookkeeping maps that are only indexed
      ([foundResources], [resourceIPMap]) are [gset]/[gmap].
    - An [unstructured.Unstructured] is given by what its accessors return
      and by the rest of its [Object] tree.
    - The API server is a record of functions ([Backend]) that does not
      change during a call; the handler's mutable fields and the clock
      are threaded explicitly. *)

From Stdlib Require Import ZArith Floats Uint63 Ascii String List Permutation Sorted Lia.
From stdpp Require Import gmap strings list.

#[local] Set Warnings "-inexact-float,-register-all".
#[local] Open Scope string_scope.
#[local] Open Scope list_scope.

(** ** Go's [strings] package, on bytes *)

Module strings.

Definition lowerByte (c : ascii) : ascii :=
  let n := Ascii.nat_of_ascii c in
  if (65 <=? n)%nat && (n <=? 90)%nat then Ascii.ascii_of_nat (n + 32) else c.

Fixpoint ToLower (s : string) : string :=
  match s with
  | EmptyString => EmptyString
  | String c s' => String (lowerByte c) (ToLower s')
  end.

Fixpoint HasPrefix (s prefix : string) : bool :=
  match prefix, s with
  | EmptyString, _ => true
  | String _ _, EmptyString => false
  | String p prefix', String c s' => Ascii.eqb c p && HasPrefix s' prefix'
  end.

Fixpoint Contains (s substr : string) : bool :=
  HasPrefix s substr ||
  match s with
  | EmptyString => false
  | String _ s' => Contains s' substr
  end.

(** [splitByte sep s cur]: the fields of [s] cut at every byte [sep];
    [cur] is the field being read, reversed. *)
Fixpoint splitByte (sep : ascii) (s : string) (cur : string) : list string :=
  match s with
  | EmptyString => [String.rev cur]
  | String c s' =>
      if Ascii.eqb c sep then String.rev cur :: splitByte sep s' EmptyString
      else splitByte sep s' (String c cur)
  end.

(** [strings.Split] for the one-byte separators the code uses. *)
Definition Split (s : string) (sep : ascii) : list string :=
  splitByte sep s EmptyString.

(** [strings.Count] of a one-byte substring. *)
Fixpoint Count (s : string) (sep : ascii) : nat :=
  match s with
  | EmptyString => 0
  | String c s' => (if Ascii.eqb c sep then 1 else 0) + Count s' sep
  end.

Definition isSpace (c : ascii) : bool :=
  let n := Ascii.nat_of_ascii c in
  ((9 <=? n)%nat && (n <=? 13)%nat) || (n =? 32)%nat.

Fixpoint TrimLeft (s : string) : string :=
  match s with
  | EmptyString => EmptyString
  | String c s' => if isSpace c then TrimLeft s' else s
  end.

Definition TrimSpace (s : string) : string :=
  String.rev (TrimLeft (String.rev (TrimLeft s))).

End strings.

(** ** Documents *)

(** The [interface{}] values of an unstructured document. *)
Inductive Value : Type :=
| VString (s : string)
| VMap (entries : list (string * Value))
| VList (items : list Value)
| VOther.

(** [m[key]] on a map given by its entries. *)
Fixpoint Index {A : Type} (m : list (string * A)) (key : string) : option A :=
  match m with
  | [] => None
  | (k, v) :: m' => if String.eqb k key then Some v else Index m' key
  end.

(** The type assertions [v.(string)], [v.(map[string]interface{})] and
    [v.([]interface{})] on the result of an index expression. *)
Definition asString (v : option Value) : option string :=
  match v with Some (VString s) => Some s | _ => None end.

Definition asMap (v : option Value) : option (list (string * Value)) :=
  match v with Some (VMap m) => Some m | _ => None end.

Definition asList (v : option Value) : option (list Value) :=
  match v with Some (VList l) => Some l | _ => None end.

(** [unstructured.Unstructured]: the metadata the accessors [GetKind],
    [GetName], [GetAPIVersion] and [GetLabels] read, and the rest of
    [Object] ([spec], [status], ...).  A nil label map is the empty list. *)
Record Unstructured : Type := {
  GetAPIVersion : string;
  GetKind : string;
  GetName : string;
  GetLabels : list (string * string);
  Object : list (string * Value)
}.

Record GroupVersionKind : Type := {
  gvkGroup : string;
  gvkVersion : string;
  gvkKind : string
}.

Record GroupVersionResource : Type := {
  Group : string;
  Version : string;
  Resource : string
}.

Record ResourceIdentifier : Type := {
  Kind : string;
  Name : string;
  GVK : GroupVersionKind
}.

Record ResourceMatch : Type := {
  MatchResource : Unstructured;
  ConfidenceScore : float;
  MatchReasons : list string
}.

(** [fmt.Sprintf("%s/%s", kind, name)] *)
Definition resourceKey (kind name : string) : string := kind +:+ "/" +:+ name.

Definition matchKey (m : ResourceMatch) : string :=
  resourceKey (GetKind (MatchResource m)) (GetName (MatchResource m)).

(** ** Confidence scorer *)

(** The two slices [matchReasons] and [scores] of
    [evaluateResourceMatchForNamespace]. *)
Record Signals : Type := {
  matchReasons : list string;
  scores : list float
}.

Definition noSignals : Signals := {| matchReasons := []; scores := [] |}.

(** One [append] to each slice. *)
Definition fire (reason : string) (score : float) (st : Signals) : Signals :=
  {| matchReasons := matchReasons st ++ [reason];
     scores := scores st ++ [score] |}.

(** [math.Pow(x, 2)]: Go squares the mantissa of [x] once and rescales
    the product by a power of two, which is the rounded product [x * x]
    whenever that product is a normal number, zero or infinite, as it is
    for the weights of the scorer, 0.5 to 0.9. *)
Definition Pow2 (x : float) : float := (x * x)%float.

(** [float64(n)] for a slice length. *)
Definition float64_of_len (n : nat) : float :=
  PrimFloat.of_uint63 (Uint63.of_Z (Z.of_nat n)).

Definition nameSignal (resource : Unstructured) (namespace : string)
    (st : Signals) : Signals :=
  if strings.Contains (strings.ToLower (GetName resource)) (strings.ToLower namespace)
  then fire ("Resource name contains namespace: " +:+ namespace) 0.8%float st
  else st.

(** [if v, ok := labels[key]; ok && v == namespace { ... }] *)
Definition exactLabel (labels : list (string * string)) (key namespace : string)
    (reason : string) (score : float) (st : Signals) : Signals :=
  match Index labels key with
  | Some v => if String.eqb v namespace then fire reason score st else st
  | None => st
  end.

(** The body of [for key, value := range labels]. *)
Definition otherLabel (namespace : string) (st : Signals)
    (entry : string * string) : Signals :=
  let '(key, value) := entry in
  if negb (String.eqb key "kubernetes-namespace")
     && negb (String.eqb key "namespace")
     && negb (String.eqb key "environment")
     && strings.Contains (strings.ToLower value) (strings.ToLower namespace)
  then fire ("Resource has label '" +:+ key +:+ "' with value containing namespace")
            0.6%float st
  else st.

Definition labelSignals (resource : Unstructured) (namespace : string)
    (st : Signals) : Signals :=
  let labels := GetLabels resource in
  let st := exactLabel labels "kubernetes-namespace" namespace
              "Resource has 'kubernetes-namespace' label matching the namespace"
              0.9%float st in
  let st := exactLabel labels "namespace" namespace
              "Resource has 'namespace' label matching the namespace"
              0.9%float st in
  let st := exactLabel labels "environment" namespace
              "Resource has 'environment' label matching the namespace"
              0.7%float st in
  fold_left (otherLabel namespace) labels st.

(** [if v, ok := labels[key].(string); ok && v == namespace { ... }] *)
Definition exactSpecLabel (labels : list (string * Value)) (key namespace : string)
    (reason : string) (score : float) (st : Signals) : Signals :=
  match asString (Index labels key) with
  | Some v => if String.eqb v namespace then fire reason score st else st
  | None => st
  end.

(** The body of [for key, value := range forProvider]. *)
Definition forProviderField (namespace : string) (st : Signals)
    (entry : string * Value) : Signals :=
  let '(key, value) := entry in
  match value with
  | VString strValue =>
      if strings.Contains (strings.ToLower strValue) (strings.ToLower namespace)
      then fire ("Resource spec.forProvider." +:+ key +:+ " contains namespace")
                0.5%float st
      else st
  | _ => st
  end.

Definition specSignals (resource : Unstructured) (namespace : string)
    (st : Signals) : Signals :=
  match asMap (Index (Object resource) "spec") with
  | Some spec =>
      match asMap (Index spec "forProvider") with
      | Some forProvider =>
          let st :=
            match asMap (Index forProvider "labels") with
            | Some labels =>
                let st := exactSpecLabel labels "kubernetes-namespace" namespace
                  "Resource spec has 'kubernetes-namespace' label in forProvider.labels"
                  0.9%float st in
                let st := exactSpecLabel labels "namespace" namespace
                  "Resource spec has 'namespace' label in forProvider.labels"
                  0.9%float st in
                exactSpecLabel labels "environment" namespace
                  "Resource spec has 'environment' label in forProvider.labels"
                  0.7%float st
            | None => st
            end in
          fold_left (forProviderField namespace) forProvider st
      | None => st
      end
  | None => st
  end.

(** Lines 242-309: every signal, in the order the code tests them. *)
Definition collectSignals (resource : Unstructured) (namespace : string) : Signals :=
  specSignals resource namespace
    (labelSignals resource namespace
       (nameSignal resource namespace noSignals)).

(** The body of [for _, score := range scores], on the pair
    [(weightedTotal, totalWeight)]. *)
Definition accumulate (acc : float * float) (score : float) : float * float :=
  let '(weightedTotal, totalWeight) := acc in
  let weight := Pow2 score in
  ((weightedTotal + score * weight)%float, (totalWeight + weight)%float).

(** Lines 317-333: [totalScore] from a non-empty [scores]. *)
Definition totalScore (scores : list float) : float :=
  let '(weightedTotal, totalWeight) := fold_left accumulate scores (0%float, 0%float) in
  if (0 <? totalWeight)%float
  then (weightedTotal / totalWeight)%float
  else (weightedTotal / float64_of_len (length scores))%float.

Definition evaluateResourceMatchForNamespace (resource : Unstructured)
    (namespace : string) : list string * float :=
  let st := collectSignals resource namespace in
  match scores st with
  | [] => ([], 0%float)
  | _ :: _ => (matchReasons st, totalScore (scores st))
  end.

(** ** Sorting matches *)

(** [matches[i], matches[j] = matches[j], matches[i]] *)
Definition swap (matches : list ResourceMatch) (i j : nat) : list ResourceMatch :=
  match matches !! i, matches !! j with
  | Some a, Some b => <[j := a]> (<[i := b]> matches)
  | _, _ => matches
  end.

(** [if matches[i].ConfidenceScore < matches[j].ConfidenceScore { swap }] *)
Definition compareSwap (matches : list ResourceMatch) (i j : nat) : list ResourceMatch :=
  match matches !! i, matches !! j with
  | Some a, Some b =>
      if (ConfidenceScore a <? ConfidenceScore b)%float then swap matches i j
      else matches
  | _, _ => matches
  end.

(** [for j := ...; j < len(matches); j++], with [n] iterations left. *)
Fixpoint innerLoop (n i j : nat) (matches : list ResourceMatch) : list ResourceMatch :=
  match n with
  | O => matches
  | S n' => innerLoop n' i (S j) (compareSwap matches i j)
  end.

(** [for i := ...; i < len(matches); i++], with [n] iterations left. *)
Fixpoint outerLoop (n i : nat) (matches : list ResourceMatch) : list ResourceMatch :=
  match n with
  | O => matches
  | S n' => outerLoop n' (S i) (innerLoop (length matches - S i) i (S i) matches)
  end.

Definition sortMatchesByConfidence (matches : list ResourceMatch) : list ResourceMatch :=
  outerLoop (length matches) 0 matches.

(** ** The API server and the handler *)

(** The dynamic client: [List] and [Get] answer [None] on an error,
    [Update] answers whether the write was accepted. *)
Record Backend : Type := {
  List_ : GroupVersionResource -> option (list Unstructured);
  Get_ : GroupVersionResource -> string -> option Unstructured;
  Update_ : GroupVersionResource -> Unstructured -> bool
}.

(** The environment of a call: the client and the clock, whose [k]-th
    reading (in nanoseconds) is [clock k]. *)
Record Env : Type := {
  dynamicClient : Backend;
  clock : nat -> Z
}.

Record CrossplaneHandler : Type := {
  projectID : string;
  mockMode : bool;
  resourceIPMap : gmap string (list ResourceIdentifier);
  lastNetworkMapBuild : Z
}.

(** The handler together with the number of clock readings made so far. *)
Record State : Type := {
  handler : CrossplaneHandler;
  clockReads : nat
}.

(** [30*time.Minute] in nanoseconds. *)
Definition thirtyMinutes : Z := 30 * 60 * 1000000000.

Definition gvr (g v r : string) : GroupVersionResource :=
  {| Group := g; Version := v; Resource := r |}.

Definition GetCrossplaneResourceTypes : list GroupVersionResource :=
  [ gvr "compute.gcp.upbound.io" "v1beta1" "instances";
    gvr "compute.gcp.upbound.io" "v1beta1" "disks";
    gvr "compute.gcp.upbound.io" "v1beta1" "firewalls";
    gvr "compute.gcp.upbound.io" "v1beta1" "networks";
    gvr "compute.gcp.upbound.io" "v1beta1" "subnetworks";
    gvr "compute.gcp.upbound.io" "v1beta1" "routers";
    gvr "compute.gcp.upbound.io" "v1beta1" "addresses";
    gvr "storage.gcp.upbound.io" "v1beta1" "buckets";
    gvr "storage.gcp.upbound.io" "v1beta1" "bucketiammembers";
    gvr "storage.gcp.upbound.io" "v1beta1" "bucketobjects";
    gvr "sql.gcp.upbound.io" "v1beta1" "databaseinstances";
    gvr "sql.gcp.upbound.io" "v1beta2" "databaseinstances";
    gvr "sql.gcp.upbound.io" "v1beta1" "databases";
    gvr "sql.gcp.upbound.io" "v1beta1" "users";
    gvr "sql.gcp.upbound.io" "v1beta1" "sslcerts";
    gvr "redis.gcp.upbound.io" "v1beta1" "instances";
    gvr "bigtable.gcp.upbound.io" "v1beta1" "instances";
    gvr "bigtable.gcp.upbound.io" "v1beta1" "tables";
    gvr "spanner.gcp.upbound.io" "v1beta1" "instances";
    gvr "spanner.gcp.upbound.io" "v1beta1" "databases";
    gvr "pubsub.gcp.upbound.io" "v1beta1" "topics";
    gvr "pubsub.gcp.upbound.io" "v1beta1" "subscriptions";
    gvr "pubsub.gcp.upbound.io" "v1beta1" "topiciammembers";
    gvr "cloudfunctions.gcp.upbound.io" "v1beta1" "functions";
    gvr "kms.gcp.upbound.io" "v1beta1" "cryptokeys";
    gvr "kms.gcp.upbound.io" "v1beta1" "keyrings";
    gvr "cloudscheduler.gcp.upbound.io" "v1beta1" "jobs";
    gvr "iam.gcp.upbound.io" "v1beta1" "serviceaccounts";
    gvr "iam.gcp.upbound.io" "v1beta1" "serviceaccountkeys";
    gvr "cloudplatform.gcp.upbound.io" "v1beta1" "serviceaccounts";
    gvr "cloudplatform.gcp.upbound.io" "v1beta1" "serviceaccountiammembers";
    gvr "cloudplatform.gcp.upbound.io" "v1beta1" "projectiammembers" ].

(** [Unstructured.GroupVersionKind]: the apiVersion is [version] or
    [group/version]; anything with more than one slash parses to the
    empty value. *)
Fixpoint cutAtSlash (s : string) (group : string) : option (string * string) :=
  match s with
  | EmptyString => None
  | String c s' =>
      if Ascii.eqb c "/" then Some (String.rev group, s')
      else cutAtSlash s' (String c group)
  end.

Definition GroupVersionKindOf (u : Unstructured) : GroupVersionKind :=
  let gv := GetAPIVersion u in
  if String.eqb gv "" || String.eqb gv "/"
  then {| gvkGroup := ""; gvkVersion := ""; gvkKind := GetKind u |}
  else
    match strings.Count gv "/" with
    | 0 => {| gvkGroup := ""; gvkVersion := gv; gvkKind := GetKind u |}
    | 1 =>
        match cutAtSlash gv EmptyString with
        | Some (g, v) => {| gvkGroup := g; gvkVersion := v; gvkKind := GetKind u |}
        | None => {| gvkGroup := ""; gvkVersion := ""; gvkKind := "" |}
        end
    | _ => {| gvkGroup := ""; gvkVersion := ""; gvkKind := "" |}
    end.

(** ** Address extraction *)

Definition isDigit (c : ascii) : bool :=
  let n := Ascii.nat_of_ascii c in (48 <=? n)%nat && (n <=? 57)%nat.

Fixpoint allDigits (s : string) : bool :=
  match s with
  | EmptyString => true
  | String c s' => isDigit c && allDigits s'
  end.

Definition octetOk (part : string) : bool :=
  negb ((String.length part =? 0)%nat || (3 <? String.length part)%nat)
  && allDigits part.

Definition looksLikeIP (s : string) : bool :=
  if negb (strings.Count s "." =? 3)%nat then false
  else
    let parts := strings.Split s "." in
    if negb (length parts =? 4)%nat then false
    else forallb octetOk parts.

Definition ipsOfParts (parts : list string) : list string :=
  List.filter looksLikeIP (map strings.TrimSpace parts).

Definition extractIPsFromConnectionString (connStr : string) : list string :=
  flat_map (fun delimiter => ipsOfParts (strings.Split connStr delimiter))
           [":"; "/"; "@"; ","]%char.

(** [if s, ok := m[field].(string); ok && s != "" { append }] over [fields]. *)
Definition nonEmptyStringFields (m : list (string * Value)) (fields : list string)
    : list string :=
  flat_map (fun field =>
              match asString (Index m field) with
              | Some ipStr => if String.eqb ipStr "" then [] else [ipStr]
              | None => []
              end) fields.

(** The same with the extra test [h.looksLikeIP(s)]. *)
Definition ipStringFields (m : list (string * Value)) (fields : list string)
    : list string :=
  List.filter looksLikeIP (nonEmptyStringFields m fields).

Definition accessConfigIPs (ac : Value) : list string :=
  match ac with
  | VMap acMap => nonEmptyStringFields acMap ["natIP"]
  | _ => []
  end.

Definition networkInterfaceIPs (ni : Value) : list string :=
  match ni with
  | VMap niMap =>
      nonEmptyStringFields niMap ["networkIP"; "ipAddress"]
      ++ match asList (Index niMap "accessConfigs") with
         | Some accessConfigs => flat_map accessConfigIPs accessConfigs
         | None => []
         end
  | _ => []
  end.

(** The closure [checkIPFields] of the SQL case. *)
Definition checkIPFields (obj : list (string * Value)) : list string :=
  flat_map (fun entry : string * Value =>
              match snd entry with
              | VString ipStr => if looksLikeIP ipStr then [ipStr] else []
              | VMap subObj =>
                  flat_map (fun sub : string * Value =>
                              match snd sub with
                              | VString ipStr => if looksLikeIP ipStr then [ipStr] else []
                              | _ => []
                              end) subObj
              | _ => []
              end) obj.

Definition connectionStringIPs (m : list (string * Value)) (fields : list string)
    : list string :=
  flat_map extractIPsFromConnectionString (nonEmptyStringFields m fields).

Definition statusAddressIPs (addr : Value) : list string :=
  match addr with
  | VMap addrMap => ipStringFields addrMap ["ip"; "ipAddress"; "address"]
  | VString ipStr => if looksLikeIP ipStr then [ipStr] else []
  | _ => []
  end.

Definition statusIPs (resource : Unstructured) : list string :=
  match asMap (Index (Object resource) "status") with
  | Some status =>
      match asMap (Index status "atProvider") with
      | Some atProvider =>
          ipStringFields atProvider ["ipAddress"; "ip"; "address"; "host"; "endpoint"]
          ++ match asList (Index atProvider "addresses") with
             | Some addresses => flat_map statusAddressIPs addresses
             | None => []
             end
      | None => []
      end
  | None => []
  end.

Definition extractIPAddresses (resource : Unstructured) : list string :=
  let kind := GetKind resource in
  let forProvider :=
    match asMap (Index (Object resource) "spec") with
    | Some spec => asMap (Index spec "forProvider")
    | None => None
    end in
  let api := GetAPIVersion resource in
  if String.eqb kind "Instance" && strings.Contains api "compute.gcp.upbound.io" then
    match forProvider with
    | Some fp =>
        nonEmptyStringFields fp ["ipAddress"; "privateIpAddress"; "publicIpAddress"]
        ++ match asList (Index fp "networkInterfaces") with
           | Some networkInterfaces => flat_map networkInterfaceIPs networkInterfaces
           | None => []
           end
    | None => []
    end
  else if String.eqb kind "DatabaseInstance" && strings.Contains api "sql.gcp.upbound.io" then
    match forProvider with
    | Some fp =>
        checkIPFields fp
        ++ connectionStringIPs fp
             ["connectionName"; "host"; "endpoint"; "uri"; "connectionString"]
    | None => []
    end
  else if String.eqb kind "Instance" && strings.Contains api "redis.gcp.upbound.io" then
    match forProvider with
    | Some fp =>
        nonEmptyStringFields fp ["host"] ++ connectionStringIPs fp ["authString"]
    | None => []
    end
  else if String.eqb kind "Instance" && strings.Contains api "spanner.gcp.upbound.io" then
    []
  else statusIPs resource.

(** ** Network index *)

(** [resourceMap[ip] = append(resourceMap[ip], identifier)] *)
Definition appendIdentifier (identifier : ResourceIdentifier)
    (resourceMap : gmap string (list ResourceIdentifier)) (ip : string)
    : gmap string (list ResourceIdentifier) :=
  <[ip := default [] (resourceMap !! ip) ++ [identifier]]> resourceMap.

Definition indexItem (resourceMap : gmap string (list ResourceIdentifier))
    (item : Unstructured) : gmap string (list ResourceIdentifier) :=
  let ipAddresses := extractIPAddresses item in
  let identifier :=
    {| Kind := GetKind item; Name := GetName item; GVK := GroupVersionKindOf item |} in
  fold_left (appendIdentifier identifier) ipAddresses resourceMap.

Definition indexType (client : Backend)
    (resourceMap : gmap string (list ResourceIdentifier))
    (gvr : GroupVersionResource) : gmap string (list ResourceIdentifier) :=
  match List_ client gvr with
  | None => resourceMap
  | Some items => fold_left indexItem items resourceMap
  end.

Definition BuildNetworkMap (env : Env) (st : State) : State :=
  let h := handler st in
  if mockMode h then st
  else
    let resourceMap :=
      fold_left (indexType (dynamicClient env)) GetCrossplaneResourceTypes ∅ in
    {| handler := {| projectID := projectID h;
                     mockMode := mockMode h;
                     resourceIPMap := resourceMap;
                     lastNetworkMapBuild := clock env (clockReads st) |};
       clockReads := S (clockReads st) |}.

(** [time.Since(h.lastNetworkMapBuild) > 30*time.Minute], one clock reading. *)
Definition staleAt (env : Env) (st : State) : bool * State :=
  ((thirtyMinutes <? clock env (clockReads st) - lastNetworkMapBuild (handler st))%Z,
   {| handler := handler st; clockReads := S (clockReads st) |}).

(** ** Match resolver *)

(** The body of [for _, item := range list.Items]. *)
Definition scanItem (namespace : string)
    (acc : list ResourceMatch * gset string) (item : Unstructured)
    : list ResourceMatch * gset string :=
  let '(matches, foundResources) := acc in
  let key := resourceKey (GetKind item) (GetName item) in
  if bool_decide (key ∈ foundResources) then acc
  else
    let '(reasons, confidence) := evaluateResourceMatchForNamespace item namespace in
    if (0.3 <? confidence)%float
    then (matches ++ [{| MatchResource := item;
                         ConfidenceScore := confidence;
                         MatchReasons := reasons |}],
          {[key]} ∪ foundResources)
    else acc.

(** The body of [for _, gvr := range resourceTypes]. *)
Definition scanType (client : Backend) (namespace : string)
    (acc : list ResourceMatch * gset string) (gvr : GroupVersionResource)
    : list ResourceMatch * gset string :=
  match List_ client gvr with
  | None => acc
  | Some items => fold_left (scanItem namespace) items acc
  end.

(** The first pass, before sorting. *)
Definition metadataPass (client : Backend) (namespace : string)
    : list ResourceMatch * gset string :=
  fold_left (scanType client namespace) GetCrossplaneResourceTypes ([], ∅).

Definition FindCrossplaneResourcesForNamespaceWithConfidence (env : Env)
    (st : State) (namespace : string) : list ResourceMatch * State :=
  if mockMode (handler st) then ([], st)
  else
    let '(stale, st) := staleAt env st in
    let st := if stale then BuildNetworkMap env st else st in
    let matches := fst (metadataPass (dynamicClient env) namespace) in
    (sortMatchesByConfidence matches, st).

(** [strings.ToLower(kind) + "s"] with the identifier's group and version. *)
Definition gvrOfIdentifier (r : ResourceIdentifier) : GroupVersionResource :=
  {| Group := gvkGroup (GVK r);
     Version := gvkVersion (GVK r);
     Resource := strings.ToLower (Kind r) +:+ "s" |}.

Definition networkReason (podIP : string) : string :=
  "Network connection detected from pod IP " +:+ podIP.

(** The body of [for _, connectedResource := range connectedResources]. *)
Definition connectResource (client : Backend) (podIP : string)
    (acc : list ResourceMatch * gset string)
    (connectedResource : ResourceIdentifier) : list ResourceMatch * gset string :=
  let '(matches, foundResources) := acc in
  let key := resourceKey (Kind connectedResource) (Name connectedResource) in
  if bool_decide (key ∈ foundResources) then acc
  else
    match Get_ client (gvrOfIdentifier connectedResource) (Name connectedResource) with
    | None => acc
    | Some resource =>
        (matches ++ [{| MatchResource := resource;
                        ConfidenceScore := 0.9%float;
                        MatchReasons := [networkReason podIP] |}],
         {[key]} ∪ foundResources)
    end.

(** The body of [for _, podIP := range podIPs]. *)
Definition connectPodIP (client : Backend)
    (resourceIPMap : gmap string (list ResourceIdentifier))
    (acc : list ResourceMatch * gset string) (podIP : string)
    : list ResourceMatch * gset string :=
  match resourceIPMap !! podIP with
  | None => acc
  | Some connectedResources =>
      fold_left (connectResource client podIP) connectedResources acc
  end.

(** [foundResources] as rebuilt from the metadata matches. *)
Definition foundKeys (matches : list ResourceMatch) : gset string :=
  fold_left (fun found m => {[matchKey m]} ∪ found) matches ∅.

(** The second pass, before the final sort. *)
Definition networkPass (client : Backend)
    (resourceIPMap : gmap string (list ResourceIdentifier))
    (matches : list ResourceMatch) (podIPs : list string)
    : list ResourceMatch * gset string :=
  fold_left (connectPodIP client resourceIPMap) podIPs (matches, foundKeys matches).

(** [len(h.resourceIPMap) == 0 || time.Since(...) > 30*time.Minute]; the
    clock is read only when the map is not empty. *)
Definition ensureNetworkMap (env : Env) (st : State) : State :=
  if (size (resourceIPMap (handler st)) =? 0)%nat then BuildNetworkMap env st
  else
    let '(stale, st) := staleAt env st in
    if stale then BuildNetworkMap env st else st.

Definition FindCrossplaneResourcesForNamespaceWithNetworking (env : Env)
    (st : State) (namespace : string) (podIPs : list string)
    : list ResourceMatch * State :=
  let '(matches, st) := FindCrossplaneResourcesForNamespaceWithConfidence env st namespace in
  if (length podIPs =? 0)%nat || mockMode (handler st) then (matches, st)
  else
    let st := ensureNetworkMap env st in
    let matches :=
      fst (networkPass (dynamicClient env) (resourceIPMap (handler st)) matches podIPs) in
    (sortMatchesByConfidence matches, st).

(** ** Label applier *)

(** [currentLabels[k] = v] on the entries of the map. *)
Fixpoint Assign (m : list (string * string)) (k v : string) : list (string * string) :=
  match m with
  | [] => [(k, v)]
  | (k', v') :: m' =>
      if String.eqb k' k then (k, v) :: m' else (k', v') :: Assign m' k v
  end.

(** The body of [for k, v := range labels], on [(currentLabels, labelsChanged)]. *)
Definition applyLabel (acc : list (string * string) * bool)
    (entry : string * string) : list (string * string) * bool :=
  let '(currentLabels, labelsChanged) := acc in
  let '(k, v) := entry in
  match Index currentLabels k with
  | Some currentValue =>
      if String.eqb currentValue v then acc else (Assign currentLabels k v, true)
  | None => (Assign currentLabels k v, true)
  end.

Definition SetLabels (u : Unstructured) (labels : list (string * string)) : Unstructured :=
  {| GetAPIVersion := GetAPIVersion u;
     GetKind := GetKind u;
     GetName := GetName u;
     GetLabels := labels;
     Object := Object u |}.

Definition gvrOfResource (resource : Unstructured) : GroupVersionResource :=
  {| Group := gvkGroup (GroupVersionKindOf resource);
     Version := gvkVersion (GroupVersionKindOf resource);
     Resource := strings.ToLower (GetKind resource) +:+ "s" |}.

Inductive ApplyError : Type :=
| FailedToGet
| FailedToUpdate.

(** What a call of [ApplyLabelsToResource] does: the error it returns and
    the [Update] requests it sends, in order. *)
Record ApplyOutcome : Type := {
  applyError : option ApplyError;
  updates : list (GroupVersionResource * Unstructured)
}.

Definition ApplyLabelsToResource (env : Env) (h : CrossplaneHandler)
    (resource : Unstructured) (labels : list (string * string)) : ApplyOutcome :=
  if mockMode h then {| applyError := None; updates := [] |}
  else
    let gvr := gvrOfResource resource in
    match Get_ (dynamicClient env) gvr (GetName resource) with
    | None => {| applyError := Some FailedToGet; updates := [] |}
    | Some current =>
        let '(currentLabels, labelsChanged) :=
          fold_left applyLabel labels (GetLabels current, false) in
        if negb labelsChanged then {| applyError := None; updates := [] |}
        else
          let current := SetLabels current currentLabels in
          {| applyError :=
               if Update_ (dynamicClient env) gvr current then None
               else Some FailedToUpdate;
             updates := [(gvr, current)] |}
    end.

(** ** The matchers without confidence *)

Definition FindCrossplaneResourcesForNamespace (env : Env) (st : State)
    (namespace : string) : list Unstructured * State :=
  let '(matches, st) :=
    FindCrossplaneResourcesForNamespaceWithConfidence env st namespace in
  (map MatchResource matches, st).

(** [if name, ok := labels[key]; ok && name == target { return true }] *)
Definition labelIs (labels : list (string * string)) (key target : string) : bool :=
  match Index labels key with
  | Some name => String.eqb name target
  | None => false
  end.

Definition specLabelIs (resource : Unstructured) (key target : string) : bool :=
  match asMap (Index (Object resource) "spec") with
  | Some spec =>
      match asMap (Index spec "forProvider") with
      | Some forProvider =>
          match asMap (Index forProvider "labels") with
          | Some labels =>
              match asString (Index labels key) with
              | Some name => String.eqb name target
              | None => false
              end
          | None => false
          end
      | None => false
      end
  | None => false
  end.

Definition isResourceForWorkload (resource : Unstructured) (workloadName : string) : bool :=
  labelIs (GetLabels resource) "workload-name" workloadName
  || labelIs (GetLabels resource) "app" workloadName
  || strings.Contains (strings.ToLower (GetName resource)) (strings.ToLower workloadName)
  || specLabelIs resource "workload-name" workloadName
  || specLabelIs resource "app" workloadName.

Definition isResourceForNamespace (resource : Unstructured) (namespace : string) : bool :=
  labelIs (GetLabels resource) "kubernetes-namespace" namespace
  || labelIs (GetLabels resource) "namespace" namespace
  || strings.Contains (strings.ToLower (GetName resource)) (strings.ToLower namespace)
  || specLabelIs resource "kubernetes-namespace" namespace
  || specLabelIs resource "namespace" namespace.

(** The body of the inner loop of [FindCrossplaneResourcesForWorkload]. *)
Definition scanWorkloadItem (workloadName : string)
    (acc : list Unstructured * gset string) (item : Unstructured)
    : list Unstructured * gset string :=
  let '(resources, foundResources) := acc in
  let key := resourceKey (GetKind item) (GetName item) in
  if bool_decide (key ∈ foundResources) then acc
  else if isResourceForWorkload item workloadName
       then (resources ++ [item], {[key]} ∪ foundResources)
       else acc.

Definition FindCrossplaneResourcesForWorkload (env : Env) (h : CrossplaneHandler)
    (workloadName : string) : list Unstructured :=
  if mockMode h then []
  else
    fst (fold_left
           (fun acc gvr =>
              match List_ (dynamicClient env) gvr with
              | None => acc
              | Some items => fold_left (scanWorkloadItem workloadName) items acc
              end)
           GetCrossplaneResourceTypes ([], ∅)).

(** * The controllers

    [controllers/crossplanelabeller_controller.go] and the pod reconciler
    [GCPResourceReconciler].  Go's [int] is the 64-bit integer of the
    platforms the operator is built for; a [metav1.Time] is its number
    of nanoseconds; the labels of a pod, a map that is only indexed, are
    a [gmap]. *)

(** ** Kubernetes objects *)

Record Namespace : Type := {
  Namespace_Name : string
}.

Record Pod : Type := {
  Pod_Name : string;
  Pod_Namespace : string;
  Pod_Labels : gmap string string
}.

(** [metav1.Condition] *)
Record Condition : Type := {
  Type_ : string;
  Status : string;
  ObservedGeneration : Z;
  LastTransitionTime : Z;
  Reason : string;
  Message : string
}.

Record CrossplaneLabellerSpec : Type := {
  NamespaceSelector : string;
  PodSelector : string;
  Labels : list (string * string);
  IntervalSeconds : Z
}.

(** The typed client of the controller: [r.List] of the namespaces and of
    the pods of one namespace, [None] on an error. *)
Record Client : Type := {
  ListNamespaces : option (list Namespace);
  ListPods : string -> option (list Pod)
}.

(** Go's [regexp] package, as far as the controller uses it. *)
Class Regexps : Type := {
  Regexp : Type;
  Compile : string -> option Regexp;
  MatchString : Regexp -> string -> bool
}.

Inductive FetchError : Type :=
| ListFailed
| InvalidPattern.

Inductive Fetched (A : Type) : Type :=
| Ok (items : list A)
| Err (err : FetchError).

Arguments Ok {A} items.
Arguments Err {A} err.

(** ** Selecting namespaces and pods *)

Definition fetchNamespaces `{Regexps} (client : Client)
    (spec : CrossplaneLabellerSpec) : Fetched Namespace :=
  match ListNamespaces client with
  | None => Err ListFailed
  | Some items =>
      if String.eqb (NamespaceSelector spec) "" then Ok items
      else
        match Compile (NamespaceSelector spec) with
        | None => Err InvalidPattern
        | Some namespacePattern =>
            Ok (List.filter
                  (fun ns => MatchString namespacePattern (Namespace_Name ns)) items)
        end
  end.

(** [for _, ns := range namespaces], from the pods collected so far. *)
Fixpoint fetchPodsFrom `{Regexps} (client : Client) (spec : CrossplaneLabellerSpec)
    (namespaces : list Namespace) (allPods : list Pod) : Fetched Pod :=
  match namespaces with
  | [] => Ok allPods
  | ns :: namespaces' =>
      match ListPods client (Namespace_Name ns) with
      | None => Err ListFailed
      | Some items =>
          if String.eqb (PodSelector spec) ""
          then fetchPodsFrom client spec namespaces' (allPods ++ items)
          else
            match Compile (PodSelector spec) with
            | None => Err InvalidPattern
            | Some podPattern =>
                fetchPodsFrom client spec namespaces'
                  (allPods
                   ++ List.filter (fun pod => MatchString podPattern (Pod_Name pod)) items)
            end
      end
  end.

Definition fetchPods `{Regexps} (client : Client) (spec : CrossplaneLabellerSpec)
    (namespaces : list Namespace) : Fetched Pod :=
  fetchPodsFrom client spec namespaces [].

(** ** Status conditions *)

(** [c.Status != status || c.Reason != reason || c.Message != message] *)
Definition conditionChanged (c : Condition) (status reason message : string) : bool :=
  negb (String.eqb (Status c) status)
  || negb (String.eqb (Reason c) reason)
  || negb (String.eqb (Message c) message).

(** [updateCondition] on [crossplaneLabeller.Status.Conditions]; [now] is
    what [metav1.Now()] answers. *)
Definition updateCondition (conditions : list Condition)
    (conditionType status reason message : string) (now : Z) : list Condition :=
  let condition :=
    {| Type_ := conditionType;
       Status := status;
       ObservedGeneration := 0;
       LastTransitionTime := now;
       Reason := reason;
       Message := message |} in
  match list_find (fun c => Type_ c = conditionType) conditions with
  | Some (i, c) =>
      if conditionChanged c status reason message
      then <[i := condition]> conditions
      else conditions
  | None => conditions ++ [condition]
  end.

(** ** The next reconciliation *)

(** A signed 64-bit integer, after wrap-around. *)
Definition int64 (z : Z) : Z := ((z + 2 ^ 63) mod 2 ^ 64 - 2 ^ 63)%Z.

(** [time.Second] *)
Definition Second : Z := 1000000000.

(** [RequeueAfter] of a completed [Reconcile]:
    [time.Duration(interval) * time.Second]. *)
Definition requeueAfter (spec : CrossplaneLabellerSpec) : Z :=
  let interval :=
    if (0 <? IntervalSeconds spec)%Z then IntervalSeconds spec else 300%Z in
  int64 (interval * Second).

(** ** The pod reconciler *)

(** [pod.Labels[key]]: the empty string for a missing key. *)
Definition podLabel (pod : Pod) (key : string) : string :=
  default "" (Pod_Labels pod !! key).

Definition workloadNameOf (pod : Pod) : string :=
  let workloadName := podLabel pod "workload-name" in
  if String.eqb workloadName "" then Pod_Name pod else workloadName.

(** The label map of [GCPResourceReconciler.Reconcile] once its empty
    values are deleted, in the order of the literal. *)
Definition workloadLabels (pod : Pod) (workloadName : string)
    : list (string * string) :=
  List.filter (fun entry => negb (String.eqb (snd entry) ""))
    [ ("workload-name", workloadName);
      ("department", podLabel pod "department");
      ("pl-category", podLabel pod "pl-category");
      ("sw-part-number", podLabel pod "sw-part-number");
      ("environment-name", podLabel pod "environment-name");
      ("team", podLabel pod "team") ].

(** ** Notions used by the statements *)

(** A sum of floats accumulated from zero in list order, as the loops of
    the code do. *)
Definition sumFloats (l : list float) : float := fold_left PrimFloat.add l 0%float.

(** The weights a signal can carry. *)
Definition weightTable : list float := [0.5; 0.6; 0.7; 0.8; 0.9]%float.

(** A strictly positive number or plus infinity. *)
Definition SFpos (x : spec_float) : bool :=
  match x with
  | S754_finite false _ _ | S754_infinity false => true
  | _ => false
  end.

(** The reason of the top-level [kubernetes-namespace] signal. *)
Definition kubernetesNamespaceReason : string :=
  "Resource has 'kubernetes-namespace' label matching the namespace".

(** The two slices grow together, by weights of the table. *)
Definition wellFormed (st : Signals) : Prop :=
  length (matchReasons st) = length (scores st)
  /\ Forall (fun w => In w weightTable) (scores st).

(** [st'] is [st] with further signals appended. *)
Definition grows (st st' : Signals) : Prop :=
  exists reasons ws,
    matchReasons st' = matchReasons st ++ reasons
    /\ scores st' = scores st ++ ws.

(** [spec.forProvider] and [spec.forProvider.labels], when they are maps. *)
Definition forProviderOf (resource : Unstructured) : option (list (string * Value)) :=
  match asMap (Index (Object resource) "spec") with
  | Some spec => asMap (Index spec "forProvider")
  | None => None
  end.

Definition nestedLabelsOf (resource : Unstructured) : option (list (string * Value)) :=
  match forProviderOf resource with
  | Some forProvider => asMap (Index forProvider "labels")
  | None => None
  end.

(** Two readings of one resource that differ only in the order in which
    the label map and the [spec.forProvider] map are enumerated. *)
Definition sameUpToEnumeration (r1 r2 : Unstructured) : Prop :=
  GetName r1 = GetName r2
  /\ List.NoDup (map fst (GetLabels r1))
  /\ Permutation (GetLabels r1) (GetLabels r2)
  /\ match forProviderOf r1, forProviderOf r2 with
     | Some fp1, Some fp2 => List.NoDup (map fst fp1) /\ Permutation fp1 fp2
     | None, None => True
     | _, _ => False
     end.

(** Same scores, and the same reasons up to their order. *)
Definition similar (st st' : Signals) : Prop :=
  scores st = scores st' /\ Permutation (matchReasons st) (matchReasons st').

(** A loop body that appends a signal of fixed weight for the entries
    that pass a test. *)
Definition fireIf {A : Type} (test : A -> bool) (reason : A -> string)
    (weight : float) (st : Signals) (entry : A) : Signals :=
  if test entry then fire (reason entry) weight st else st.

(** [a] is not exceeded by [b], for the comparison the sort uses. *)
Definition notBelow (a b : ResourceMatch) : Prop :=
  (ConfidenceScore a <? ConfidenceScore b)%float = false.

(** Descending order of confidence: no match is followed, at any later
    position, by a match of strictly greater confidence. *)
Definition descending (matches : list ResourceMatch) : Prop :=
  StronglySorted notBelow matches.

(** One run of the inner loop seen from the element at position [i]: the
    pivot [p] meets the later elements in turn and changes places with
    each strictly greater one. *)
Fixpoint bubbleMax (p : ResourceMatch) (rest : list ResourceMatch)
    : ResourceMatch * list ResourceMatch :=
  match rest with
  | [] => (p, [])
  | y :: rest' =>
      if (ConfidenceScore p <? ConfidenceScore y)%float
      then let '(p', r) := bubbleMax y rest' in (p', p :: r)
      else let '(p', r) := bubbleMax p rest' in (p', y :: r)
  end.

(** The outer loop on the part not yet in place, [n] iterations left. *)
Fixpoint exchangeSort (n : nat) (l : list ResourceMatch) : list ResourceMatch :=
  match n, l with
  | S n', p :: rest => let '(p', r) := bubbleMax p rest in p' :: exchangeSort n' r
  | _, _ => l
  end.

(** The key under which a listed resource is remembered. *)
Definition itemKey (item : Unstructured) : string :=
  resourceKey (GetKind item) (GetName item).

(** The match the first pass builds for a resource. *)
Definition matchOf (namespace : string) (item : Unstructured) : ResourceMatch :=
  {| MatchResource := item;
     ConfidenceScore := snd (evaluateResourceMatchForNamespace item namespace);
     MatchReasons := fst (evaluateResourceMatchForNamespace item namespace) |}.

(** [confidence > 0.3] *)
Definition accepted (namespace : string) (item : Unstructured) : bool :=
  (0.3 <? snd (evaluateResourceMatchForNamespace item namespace))%float.

(** Discovery order: the instances of every resource type that could be
    listed, type after type. *)
Definition allItems (client : Backend) : list Unstructured :=
  flat_map (fun gvr => default [] (List_ client gvr)) GetCrossplaneResourceTypes.

(** The resources a call of the resolver goes through: none in mock mode. *)
Definition listedItems (env : Env) (st : State) : list Unstructured :=
  if mockMode (handler st) then [] else allItems (dynamicClient env).

(** [item] is listed, its confidence exceeds the threshold, and no
    resource listed before it under the same key was accepted: it is
    scored (not skipped as already found) and passes the threshold. *)
Definition firstAccepted (namespace : string) (items : list Unstructured)
    (item : Unstructured) : Prop :=
  exists before after,
    items = before ++ item :: after
    /\ accepted namespace item = true
    /\ Forall (fun item' => itemKey item' = itemKey item ->
                            accepted namespace item' = false) before.

(** What the first pass holds after the resources [finished]: the matches
    of the first accepted resource of each key, and the keys of the
    accepted resources. *)
Definition keeps (namespace : string) (finished : list Unstructured)
    (acc : list ResourceMatch * gset string) : Prop :=
  (forall m, In m (fst acc) <->
             exists item, m = matchOf namespace item
                          /\ firstAccepted namespace finished item)
  /\ (forall k, k ∈ snd acc <->
                exists item, In item finished /\ itemKey item = k
                             /\ accepted namespace item = true).

(** The network index names resources the way the API server returns
    them: fetching an indexed identifier yields a resource of that kind
    and name. *)
Definition indexFaithful (client : Backend)
    (index : gmap string (list ResourceIdentifier)) : Prop :=
  forall podIP identifiers identifier resource,
    index !! podIP = Some identifiers ->
    In identifier identifiers ->
    Get_ client (gvrOfIdentifier identifier) (Name identifier) = Some resource ->
    GetKind resource = Kind identifier /\ GetName resource = Name identifier.

(** A match of the network phase: a resource that the index connects to
    an observed address, that the metadata matches did not contain, with
    confidence 0.9 and the one reason, which is the fixed text followed
    by the address. *)
Definition networkMatch (client : Backend)
    (index : gmap string (list ResourceIdentifier)) (podIPs : list string)
    (metadata : list ResourceMatch) (m : ResourceMatch) : Prop :=
  ConfidenceScore m = 0.9%float
  /\ length (MatchReasons m) = 1
  /\ exists podIP identifiers identifier,
       In podIP podIPs
       /\ index !! podIP = Some identifiers
       /\ In identifier identifiers
       /\ ~ In (resourceKey (Kind identifier) (Name identifier)) (map matchKey metadata)
       /\ Get_ client (gvrOfIdentifier identifier) (Name identifier)
          = Some (MatchResource m)
       /\ MatchReasons m = ["Network connection detected from pod IP " +:+ podIP].

(** The keys of the matches are distinct and all remembered as found. *)
Definition distinctKeys (acc : list ResourceMatch * gset string) : Prop :=
  List.NoDup (map matchKey (fst acc))
  /\ forall k, In k (map matchKey (fst acc)) -> k ∈ snd acc.

(** ** A small cluster, for examples *)

(** [time.Time{}], the year 1, in nanoseconds before the Unix epoch. *)
Definition zeroTime : Z := -62135596800 * 1000000000.

(** The handler [NewCrossplaneHandler] returns. *)
Definition NewCrossplaneHandler (project : string) (mock : bool) : CrossplaneHandler :=
  {| projectID := project;
     mockMode := mock;
     resourceIPMap := ∅;
     lastNetworkMapBuild := zeroTime |}.

Definition computeInstance (name : string) (labels : list (string * string))
    (forProvider : list (string * Value)) : Unstructured :=
  {| GetAPIVersion := "compute.gcp.upbound.io/v1beta1";
     GetKind := "Instance";
     GetName := name;
     GetLabels := labels;
     Object := [("spec", VMap [("forProvider", VMap forProvider)])] |}.

Definition billingA : Unstructured := computeInstance "billing-a" [] [].
Definition billingB : Unstructured := computeInstance "billing-b" [] [].
Definition ledger : Unstructured :=
  computeInstance "ledger" [("kubernetes-namespace", "billing")] [].
Definition web1 : Unstructured :=
  computeInstance "web-1" [("team", "frontend")]
    [("networkInterfaces", VList [VMap [("networkIP", VString "10.0.3.4")]])].

Definition exampleInstances : list Unstructured := [billingA; billingB; ledger; web1].

Definition isComputeInstances (gvr : GroupVersionResource) : bool :=
  String.eqb (Group gvr) "compute.gcp.upbound.io"
  && String.eqb (Version gvr) "v1beta1"
  && String.eqb (Resource gvr) "instances".

(** A cluster with four compute instances and no other resource type
    installed, that accepts every update. *)
Definition exampleBackend : Backend :=
  {| List_ := fun gvr => if isComputeInstances gvr then Some exampleInstances else None;
     Get_ := fun gvr name =>
               if isComputeInstances gvr
               then List.find (fun r => String.eqb (GetName r) name) exampleInstances
               else None;
     Update_ := fun _ _ => true |}.

Definition exampleEnv : Env :=
  {| dynamicClient := exampleBackend;
     clock := fun k => (1700000000 * 1000000000 + Z.of_nat k)%Z |}.

Definition exampleState : State :=
  {| handler := NewCrossplaneHandler "demo-project" false; clockReads := 0 |}.

(** ** Notions for the network index *)

(** The identifier [BuildNetworkMap] records for a resource. *)
Definition identifierOf (item : Unstructured) : ResourceIdentifier :=
  {| Kind := GetKind item; Name := GetName item; GVK := GroupVersionKindOf item |}.

(** [ident] is recorded under the address [ip]. *)
Definition indexed (index : gmap string (list ResourceIdentifier))
    (ip : string) (ident : ResourceIdentifier) : Prop :=
  exists identifiers, index !! ip = Some identifiers /\ In ident identifiers.

(** ** Notions for the workload finder *)

(** What the workload scan holds after the resources [finished]. *)
Definition workloadScanned (workloadName : string) (finished : list Unstructured)
    (acc : list Unstructured * gset string) : Prop :=
  Forall (fun r => isResourceForWorkload r workloadName = true) (fst acc)
  /\ List.NoDup (map itemKey (fst acc))
  /\ sublist (fst acc) finished
  /\ (forall k, k ∈ snd acc <-> In k (map itemKey (fst acc)))
  /\ (forall item, In item finished ->
        isResourceForWorkload item workloadName = true ->
        In (itemKey item) (map itemKey (fst acc))).

(** The first resource of each key, in the order of the list. *)
Fixpoint firstOfEachKey (items : list Unstructured) : list Unstructured :=
  match items with
  | [] => []
  | item :: rest =>
      item :: List.filter (fun r => negb (String.eqb (itemKey r) (itemKey item)))
                (firstOfEachKey rest)
  end.

(** Some resource of the list has the key of [r]. *)
Definition keyAmong (resources : list Unstructured) (r : Unstructured) : bool :=
  existsb (fun r' => String.eqb (itemKey r) (itemKey r')) resources.

(** A compute instance and a Redis instance of one name, and a cluster
    that lists both. *)
Definition cacheCompute : Unstructured :=
  computeInstance "cache" [("app", "shop")] [].

Definition cacheRedis : Unstructured :=
  {| GetAPIVersion := "redis.gcp.upbound.io/v1beta1";
     GetKind := "Instance";
     GetName := "cache";
     GetLabels := [("workload-name", "shop")];
     Object := [] |}.

Definition isRedisInstances (gvr : GroupVersionResource) : bool :=
  String.eqb (Group gvr) "redis.gcp.upbound.io"
  && String.eqb (Version gvr) "v1beta1"
  && String.eqb (Resource gvr) "instances".

Definition twoGroupsEnv : Env :=
  {| dynamicClient :=
       {| List_ := fun gvr =>
                     if isComputeInstances gvr then Some [cacheCompute]
                     else if isRedisInstances gvr then Some [cacheRedis]
                     else None;
          Get_ := fun gvr name =>
                    if negb (String.eqb name "cache") then None
                    else if isComputeInstances gvr then Some cacheCompute
                    else if isRedisInstances gvr then Some cacheRedis
                    else None;
          Update_ := fun _ _ => true |};
     clock := clock exampleEnv |}.

(** ** Notions for the address syntax *)

(** [a.b.c.d] *)
Definition dottedQuad (a b c d : string) : string :=
  a +:+ "." +:+ b +:+ "." +:+ c +:+ "." +:+ d.

(** Every byte of the string passes the test. *)
Fixpoint allBytes (test : ascii -> bool) (s : string) : bool :=
  match s with
  | EmptyString => true
  | String c s' => test c && allBytes test s'
  end.

(** The fields put back together around the separator. *)
Fixpoint joinWith (sep : ascii) (parts : list string) : string :=
  match parts with
  | [] => EmptyString
  | part :: rest =>
      match rest with
      | [] => part
      | _ :: _ => part +:+ String sep (joinWith sep rest)
      end
  end.

(** A byte of an address: a digit or the dot. *)
Definition addressByte (c : ascii) : bool := isDigit c || Ascii.eqb c ".".

(** Every string of the list passes [looksLikeIP]. *)
Definition addresses (ips : list string) : Prop :=
  List.Forall (fun ip => looksLikeIP ip = true) ips.

(** A SQL instance whose host is an address. *)
Definition sqlPrimary : Unstructured :=
  {| GetAPIVersion := "sql.gcp.upbound.io/v1beta1";
     GetKind := "DatabaseInstance";
     GetName := "orders-db";
     GetLabels := [];
     Object := [("spec", VMap [("forProvider",
                  VMap [("region", VString "europe-west1");
                        ("host", VString "10.0.0.5")])])] |}.

(** ** Notions for the controllers *)

(** The test [fetchPods] applies to a pod under a selector, if the
    selector can be used. *)
Definition podFilter `{Regexps} (selector : string) : option (Pod -> bool) :=
  if String.eqb selector "" then Some (fun _ => true)
  else
    match Compile selector with
    | Some podPattern => Some (fun pod => MatchString podPattern (Pod_Name pod))
    | None => None
    end.

(** The pods a namespace lists; none when the listing fails. *)
Definition podsOf (client : Client) (ns : Namespace) : list Pod :=
  default [] (ListPods client (Namespace_Name ns)).

(** The condition [updateCondition] builds. *)
Definition newCondition (conditionType status reason message : string) (now : Z)
    : Condition :=
  {| Type_ := conditionType;
     Status := status;
     ObservedGeneration := 0;
     LastTransitionTime := now;
     Reason := reason;
     Message := message |}.

(** Some condition of the list has the type. *)
Definition hasType (conditions : list Condition) (conditionType : string) : bool :=
  existsb (fun c => String.eqb (Type_ c) conditionType) conditions.

(** ** Examples for the controllers *)

(** A pattern engine for examples: it knows the patterns made of letters,
    digits and hyphens, which match the names that contain them, and
    refuses every other pattern. *)
Definition literalByte (c : ascii) : bool :=
  let n := Ascii.nat_of_ascii c in
  ((48 <=? n)%nat && (n <=? 57)%nat) || ((97 <=? n)%nat && (n <=? 122)%nat)
  || ((65 <=? n)%nat && (n <=? 90)%nat) || (n =? 45)%nat.

Definition literalPatterns : Regexps :=
  {| Regexp := string;
     Compile := fun pattern => if allBytes literalByte pattern then Some pattern else None;
     MatchString := fun pattern s => strings.Contains s pattern |}.

Definition examplePod : Pod :=
  {| Pod_Name := "web-1-7d9f";
     Pod_Namespace := "frontend";
     Pod_Labels := {[ "workload-name" := "web-1"; "department" := "sales" ]} |}.

Definition exampleClient : Client :=
  {| ListNamespaces := Some [ {| Namespace_Name := "frontend" |} ];
     ListPods := fun ns => if String.eqb ns "frontend" then Some [examplePod] else None |}.

Definition readyCondition : Condition :=
  newCondition "Ready" "True" "ReconciliationSucceeded"
    "Successfully labeled 2 resources" 1700000000.

(** * Binary64 facts *)

Module Binary64.

Abbreviation emin := (SpecFloat.emin prec emax).
Abbreviation fexp := (SpecFloat.fexp prec emax).

Lemma SFltb_irrefl (x : spec_float) : SFltb x x = false.
Proof.
  unfold SFltb, SFcompare.
  destruct x as [s|s| |s m e]; try destruct s; try reflexivity;
    rewrite Z.compare_refl;
    change (Pos.compare_cont Eq m m) with (Pos.compare m m);
    rewrite Pos.compare_refl; reflexivity.
Qed.

Lemma SFltb_trans (x y z : spec_float) :
  SFltb x y = true -> SFltb y z = true -> SFltb x z = true.
Proof.
  unfold SFltb, SFcompare.
  destruct x as [sx|sx| |sx mx ex], y as [sy|sy| |sy my ey],
           z as [sz|sz| |sz mz ez];
    try destruct sx; try destruct sy; try destruct sz;
    try discriminate; try reflexivity;
    repeat match goal with
    | |- context [Pos.compare_cont Eq ?a ?b] =>
        change (Pos.compare_cont Eq a b) with (Pos.compare a b)
    end;
    destruct (Z.compare_spec ex ey), (Z.compare_spec ey ez),
             (Z.compare_spec ex ez);
    try discriminate; try reflexivity; try lia;
    destruct (Pos.compare_spec mx my), (Pos.compare_spec my mz),
             (Pos.compare_spec mx mz);
    simpl; try discriminate; try reflexivity; try lia.
Qed.

Lemma ltb_irrefl (x : float) : (x <? x)%float = false.
Proof. rewrite FloatAxioms.ltb_spec. apply SFltb_irrefl. Qed.

Lemma ltb_trans (x y z : float) :
  (x <? y)%float = true -> (y <? z)%float = true -> (x <? z)%float = true.
Proof. rewrite !FloatAxioms.ltb_spec. apply SFltb_trans. Qed.

Lemma ltb_asym (x y : float) :
  (x <? y)%float = true -> (y <? x)%float = false.
Proof.
  intros Hxy. destruct (y <? x)%float eqn:Hyx; [|reflexivity].
  rewrite <- (ltb_irrefl x). symmetry. exact (ltb_trans x y x Hxy Hyx).
Qed.

(** Shifting a mantissa right by fewer places than it has digits leaves
    a positive mantissa. *)
Lemma iter_pos_nat {A : Type} (f : A -> A) (p : positive) (x : A) :
  SpecFloat.iter_pos f p x = Nat.iter (Pos.to_nat p) f x.
Proof.
  revert x. induction p as [p IH|p IH|]; intros x; cbn [SpecFloat.iter_pos].
  - rewrite !IH, Pos2Nat.inj_xI.
    replace (S (2 * Pos.to_nat p)) with (S (Pos.to_nat p + Pos.to_nat p)) by lia.
    now rewrite Nat.iter_succ_r, Nat.iter_add.
  - rewrite !IH, Pos2Nat.inj_xO.
    replace (2 * Pos.to_nat p)%nat with (Pos.to_nat p + Pos.to_nat p)%nat by lia.
    now rewrite Nat.iter_add.
  - reflexivity.
Qed.

Lemma shr_iter_pos (n : nat) : forall (mrs : shr_record) (m : positive),
  shr_m mrs = Zpos m -> (n < Pos.to_nat (digits2_pos m))%nat ->
  exists m', shr_m (Nat.iter n shr_1 mrs) = Zpos m'.
Proof.
  induction n as [|n IH]; intros mrs m Hm Hn.
  - exists m. exact Hm.
  - rewrite Nat.iter_succ_r.
    destruct mrs as [mm r s]. simpl in Hm. subst mm.
    destruct m as [q|q|]; simpl in Hn.
    + apply (IH _ q); [reflexivity | rewrite Pos2Nat.inj_succ in Hn; lia].
    + apply (IH _ q); [reflexivity | rewrite Pos2Nat.inj_succ in Hn; lia].
    + change (Pos.to_nat 1) with 1%nat in Hn. lia.
Qed.

Lemma shr_fexp_pos (m : positive) (e : Z) (l : location) :
  (emin <= e)%Z ->
  exists m', shr_m (fst (shr_fexp prec emax (Zpos m) e l)) = Zpos m'
             /\ (emin <= snd (shr_fexp prec emax (Zpos m) e l))%Z.
Proof.
  intros He. unfold shr_fexp, shr. simpl Zdigits2.
  destruct (fexp (Z.pos (digits2_pos m) + e) - e)%Z as [|p|p] eqn:Hn.
  - exists m. split; [destruct l as [|[]]; reflexivity | exact He].
  - assert (Hp : (Z.pos p = Z.pos (digits2_pos m) - prec)%Z).
    { unfold SpecFloat.fexp in Hn. lia. }
    destruct (shr_iter_pos (Pos.to_nat p) (shr_record_of_loc (Z.pos m) l) m)
      as [m' Hm'].
    + destruct l as [|[]]; reflexivity.
    + change prec with 53%Z in Hp. lia.
    + exists m'. simpl. rewrite iter_pos_nat. split; [exact Hm' | lia].
  - exists m. split; [destruct l as [|[]]; reflexivity | exact He].
Qed.

Lemma round_nearest_even_pos (m : positive) (l : location) :
  exists m', round_nearest_even (Zpos m) l = Zpos m'.
Proof.
  destruct l as [|[]]; cbn [round_nearest_even];
    try destruct (Z.even (Z.pos m)); eexists; reflexivity.
Qed.

Lemma binary_round_aux_pos (m : positive) (e : Z) (l : location) :
  (emin <= e)%Z -> SFpos (binary_round_aux prec emax false (Zpos m) e l) = true.
Proof.
  intros He. unfold binary_round_aux.
  destruct (shr_fexp_pos m e l He) as (m1 & Hm1 & He1).
  destruct (shr_fexp prec emax (Z.pos m) e l) as [mrs1 e1]. simpl in Hm1, He1.
  rewrite Hm1.
  destruct (round_nearest_even_pos m1 (loc_of_shr_record mrs1)) as [m2 Hm2].
  rewrite Hm2.
  destruct (shr_fexp_pos m2 e1 loc_Exact He1) as (m3 & Hm3 & _).
  destruct (shr_fexp prec emax (Z.pos m2) e1 loc_Exact) as [mrs3 e3].
  simpl in Hm3. rewrite Hm3.
  destruct (e3 <=? emax - prec)%Z; reflexivity.
Qed.

Lemma valid_emin (s : bool) (m : positive) (e : Z) :
  valid_binary (S754_finite s m e) = true -> (emin <= e)%Z.
Proof.
  unfold SpecFloat.valid_binary, bounded, canonical_mantissa. intros H.
  apply andb_prop in H as [H _]. apply Z.eqb_eq in H.
  unfold SpecFloat.fexp in H. lia.
Qed.

Lemma binary_round_pos (m : positive) (e : Z) :
  (emin <= e)%Z -> SFpos (binary_round prec emax false m e) = true.
Proof.
  intros He. unfold binary_round.
  destruct (shl_align m e (fexp (Z.pos (digits2_pos m) + e))) as [mz ez] eqn:Hs.
  apply binary_round_aux_pos.
  unfold shl_align in Hs.
  destruct (fexp (Z.pos (digits2_pos m) + e) - e)%Z eqn:Hd;
    inversion Hs; subst; try exact He.
  unfold SpecFloat.fexp. lia.
Qed.

(** The sum of two positive numbers is positive: it is neither zero,
    nor negative, nor NaN. *)
Lemma SFadd_pos (x y : spec_float) :
  valid_binary x = true -> valid_binary y = true ->
  SFpos x = true -> SFpos y = true -> SFpos (SF64add x y) = true.
Proof.
  intros Vx Vy Px Py.
  destruct x as [sx|sx| |sx mx ex], y as [sy|sy| |sy my ey];
    try discriminate; destruct sx; try discriminate;
    destruct sy; try discriminate; try reflexivity.
  unfold SF64add, SFadd. simpl cond_Zopp.
  apply valid_emin in Vx, Vy.
  change (Z.pos ?a + Z.pos ?b)%Z with (Z.pos (a + b)).
  unfold binary_normalize. apply binary_round_pos. lia.
Qed.

Lemma add_pos (x y : float) :
  SFpos (Prim2SF x) = true -> SFpos (Prim2SF y) = true ->
  SFpos (Prim2SF (x + y)) = true.
Proof.
  intros Hx Hy. rewrite FloatAxioms.add_spec.
  apply SFadd_pos; auto using Prim2SF_valid.
Qed.

(** A number equal to zero is not above zero. *)
Lemma eqb_zero_not_above (x : float) :
  (x =? 0)%float = true -> (0 <? x)%float = false.
Proof.
  rewrite FloatAxioms.eqb_spec, FloatAxioms.ltb_spec.
  change (Prim2SF 0) with (S754_zero false).
  unfold SFeqb, SFltb, SFcompare.
  destruct (Prim2SF x) as [s|s| |s m e]; try destruct s;
    intros H; try reflexivity; discriminate H.
Qed.

Lemma pos_ltb (x : float) : SFpos (Prim2SF x) = true -> (0 <? x)%float = true.
Proof.
  intros H. rewrite FloatAxioms.ltb_spec.
  destruct (Prim2SF x) as [s|s| |s m e]; try discriminate;
    destruct s; try discriminate; reflexivity.
Qed.

End Binary64.

(** * The confidence scorer *)

Section Scorer.

(** ** The two slices grow together, by weights of the table *)

Lemma wellFormed_fire reason w st :
  In w weightTable -> wellFormed st -> wellFormed (fire reason w st).
Proof.
  intros Hw [Hlen Hall]. split; unfold fire; cbn [matchReasons scores].
  - rewrite !length_app, Hlen. reflexivity.
  - apply Forall_app. split; [exact Hall | constructor; [exact Hw | constructor]].
Qed.

Ltac in_table := unfold weightTable; simpl; tauto.

Lemma wellFormed_fold {A} (f : Signals -> A -> Signals) (l : list A) :
  (forall st x, wellFormed st -> wellFormed (f st x)) ->
  forall st, wellFormed st -> wellFormed (fold_left f l st).
Proof.
  intros Hf. induction l as [|x l IH]; intros st Hst; simpl; auto.
Qed.

Lemma wellFormed_exactLabel labels key ns reason w st :
  In w weightTable -> wellFormed st ->
  wellFormed (exactLabel labels key ns reason w st).
Proof.
  intros Hw Hst. unfold exactLabel.
  destruct (Index labels key) as [v|]; [|exact Hst].
  destruct (String.eqb v ns); auto using wellFormed_fire.
Qed.

Lemma wellFormed_exactSpecLabel labels key ns reason w st :
  In w weightTable -> wellFormed st ->
  wellFormed (exactSpecLabel labels key ns reason w st).
Proof.
  intros Hw Hst. unfold exactSpecLabel.
  destruct (asString (Index labels key)) as [v|]; [|exact Hst].
  destruct (String.eqb v ns); auto using wellFormed_fire.
Qed.

Lemma wellFormed_otherLabel ns st entry :
  wellFormed st -> wellFormed (otherLabel ns st entry).
Proof.
  intros Hst. destruct entry as [key value]. unfold otherLabel.
  match goal with |- context [if ?b then _ else _] => destruct b end;
    [apply wellFormed_fire; [in_table | exact Hst] | exact Hst].
Qed.

Lemma wellFormed_forProviderField ns st entry :
  wellFormed st -> wellFormed (forProviderField ns st entry).
Proof.
  intros Hst. destruct entry as [key value]. unfold forProviderField.
  destruct value; try exact Hst.
  match goal with |- context [if ?b then _ else _] => destruct b end;
    [apply wellFormed_fire; [in_table | exact Hst] | exact Hst].
Qed.

Lemma wellFormed_collectSignals resource ns :
  wellFormed (collectSignals resource ns).
Proof.
  unfold collectSignals, specSignals, labelSignals, nameSignal.
  assert (H0 : wellFormed noSignals) by (split; [reflexivity | constructor]).
  set (st1 := if strings.Contains _ _ then _ else _).
  assert (H1 : wellFormed st1).
  { subst st1. destruct (strings.Contains _ _);
      [apply wellFormed_fire; [in_table | exact H0] | exact H0]. }
  set (st2 := fold_left (otherLabel ns) _ _).
  assert (H2 : wellFormed st2).
  { subst st2. apply wellFormed_fold; [intros; now apply wellFormed_otherLabel|].
    repeat (apply wellFormed_exactLabel; [in_table|]). exact H1. }
  destruct (asMap (Index (Object resource) "spec")) as [spec|]; [|exact H2].
  destruct (asMap (Index spec "forProvider")) as [fp|]; [|exact H2].
  apply wellFormed_fold; [intros; now apply wellFormed_forProviderField|].
  destruct (asMap (Index fp "labels")) as [labels|]; [|exact H2].
  repeat (apply wellFormed_exactSpecLabel; [in_table|]). exact H2.
Qed.

(** ** The accumulation loop *)

Lemma fold_accumulate (l : list float) : forall a b : float,
  fold_left accumulate l (a, b)
  = (fold_left PrimFloat.add (map (fun w => (w * Pow2 w)%float) l) a,
     fold_left PrimFloat.add (map Pow2 l) b).
Proof.
  induction l as [|w l IH]; intros a b; simpl; [reflexivity|].
  apply IH.
Qed.

Lemma square_pos (w : float) :
  In w weightTable -> SFpos (Prim2SF (Pow2 w)) = true.
Proof.
  unfold weightTable. simpl.
  intros [<-|[<-|[<-|[<-|[<-|[]]]]]]; vm_compute; reflexivity.
Qed.

Lemma zero_plus_square_pos (w : float) :
  In w weightTable -> SFpos (Prim2SF (0 + Pow2 w)) = true.
Proof.
  unfold weightTable. simpl.
  intros [<-|[<-|[<-|[<-|[<-|[]]]]]]; vm_compute; reflexivity.
Qed.

Lemma fold_squares_pos (l : list float) : forall acc : float,
  Forall (fun w => In w weightTable) l ->
  SFpos (Prim2SF acc) = true ->
  SFpos (Prim2SF (fold_left PrimFloat.add (map Pow2 l) acc)) = true.
Proof.
  induction l as [|w l IH]; intros acc Hall Hacc; simpl; [exact Hacc|].
  inversion Hall as [|? ? Hw Hl]; subst.
  apply IH; [exact Hl|]. apply Binary64.add_pos; [exact Hacc|].
  apply square_pos, Hw.
Qed.

(** With the weights of the table the denominator is strictly positive. *)
Lemma totalWeight_pos (l : list float) :
  l <> [] -> Forall (fun w => In w weightTable) l ->
  (0 <? sumFloats (map Pow2 l))%float = true.
Proof.
  intros Hne Hall. apply Binary64.pos_ltb.
  destruct l as [|w l]; [congruence|].
  inversion Hall as [|? ? Hw Hl]; subst.
  unfold sumFloats. simpl.
  apply fold_squares_pos; [exact Hl|]. apply zero_plus_square_pos, Hw.
Qed.

Lemma totalScore_unfold (l : list float) :
  totalScore l =
  if (0 <? sumFloats (map Pow2 l))%float
  then (sumFloats (map (fun w => (w * Pow2 w)%float) l) / sumFloats (map Pow2 l))%float
  else (sumFloats (map (fun w => (w * Pow2 w)%float) l)
        / float64_of_len (length l))%float.
Proof. unfold totalScore. rewrite fold_accumulate. reflexivity. Qed.

(** C1. For every resource and namespace name, the scorer returns no
    reason and confidence exactly 0 when no signal fired; otherwise it
    returns one reason per fired signal and the confidence
    [Σ(w·(w·w)) / Σ(w·w)] over the fired weights [w], each one of 0.5,
    0.6, 0.7, 0.8 and 0.9, both sums being accumulated in firing order. *)
Theorem score_is_weighted_average (resource : Unstructured) (namespace : string) :
  let fired := collectSignals resource namespace in
  length (matchReasons fired) = length (scores fired)
  /\ Forall (fun w => In w [0.5; 0.6; 0.7; 0.8; 0.9]%float) (scores fired)
  /\ match scores fired with
     | [] => evaluateResourceMatchForNamespace resource namespace = ([], 0%float)
     | _ :: _ =>
         evaluateResourceMatchForNamespace resource namespace
         = (matchReasons fired,
            (sumFloats (map (fun w => (w * (w * w))%float) (scores fired))
             / sumFloats (map (fun w => (w * w)%float) (scores fired)))%float)
     end.
Proof.
  intros fired.
  destruct (wellFormed_collectSignals resource namespace) as [Hlen Hall].
  fold fired in Hlen, Hall. split; [exact Hlen|]. split; [exact Hall|].
  unfold evaluateResourceMatchForNamespace. fold fired.
  destruct (scores fired) as [|w ws] eqn:Hs; [reflexivity|].
  rewrite totalScore_unfold, totalWeight_pos; [|discriminate|exact Hall].
  unfold Pow2. reflexivity.
Qed.

(** With the weights the scorer uses, the branch for a denominator that
    is not above zero is never taken: whenever a signal fired, the
    accumulated denominator [Σ(w·w)] is above zero. *)
Lemma fallback_never_taken (resource : Unstructured) (namespace : string) :
  scores (collectSignals resource namespace) <> [] ->
  (0 <? sumFloats (map (fun w => (w * w)%float)
                     (scores (collectSignals resource namespace))))%float
  = true.
Proof.
  intros Hne. apply (totalWeight_pos (scores (collectSignals resource namespace)));
    [exact Hne|].
  apply wellFormed_collectSignals.
Qed.

(** ** Signals are only ever appended *)

Lemma grows_refl st : grows st st.
Proof. exists [], []. now rewrite !app_nil_r. Qed.

Lemma grows_trans st1 st2 st3 : grows st1 st2 -> grows st2 st3 -> grows st1 st3.
Proof.
  intros (r1 & w1 & Hr1 & Hw1) (r2 & w2 & Hr2 & Hw2).
  exists (r1 ++ r2), (w1 ++ w2). rewrite Hr2, Hw2, Hr1, Hw1.
  now rewrite <- !app_assoc.
Qed.

Lemma grows_fire reason w st : grows st (fire reason w st).
Proof. exists [reason], [w]. split; reflexivity. Qed.

Lemma grows_fold {A} (f : Signals -> A -> Signals) (l : list A) :
  (forall st x, grows st (f st x)) -> forall st, grows st (fold_left f l st).
Proof.
  intros Hf. induction l as [|x l IH]; intros st; simpl; [apply grows_refl|].
  eapply grows_trans; [apply Hf | apply IH].
Qed.

Lemma grows_nameSignal resource ns st : grows st (nameSignal resource ns st).
Proof.
  unfold nameSignal. destruct (strings.Contains _ _);
    [apply grows_fire | apply grows_refl].
Qed.

Lemma grows_exactLabel labels key ns reason w st :
  grows st (exactLabel labels key ns reason w st).
Proof.
  unfold exactLabel. destruct (Index labels key) as [v|]; [|apply grows_refl].
  destruct (String.eqb v ns); [apply grows_fire | apply grows_refl].
Qed.

Lemma grows_exactSpecLabel labels key ns reason w st :
  grows st (exactSpecLabel labels key ns reason w st).
Proof.
  unfold exactSpecLabel.
  destruct (asString (Index labels key)) as [v|]; [|apply grows_refl].
  destruct (String.eqb v ns); [apply grows_fire | apply grows_refl].
Qed.

Lemma grows_otherLabel ns st entry : grows st (otherLabel ns st entry).
Proof.
  destruct entry as [key value]. unfold otherLabel.
  match goal with |- context [if ?b then _ else _] => destruct b end;
    [apply grows_fire | apply grows_refl].
Qed.

Lemma grows_forProviderField ns st entry : grows st (forProviderField ns st entry).
Proof.
  destruct entry as [key value]. unfold forProviderField.
  destruct value; try apply grows_refl.
  match goal with |- context [if ?b then _ else _] => destruct b end;
    [apply grows_fire | apply grows_refl].
Qed.

Lemma grows_labelSignals resource ns st : grows st (labelSignals resource ns st).
Proof.
  unfold labelSignals.
  eapply grows_trans; [|apply grows_fold; intros; apply grows_otherLabel].
  eapply grows_trans; [|apply grows_exactLabel].
  eapply grows_trans; [|apply grows_exactLabel].
  apply grows_exactLabel.
Qed.

Lemma specSignals_forProviderOf resource ns st :
  specSignals resource ns st =
  match forProviderOf resource with
  | Some forProvider =>
      fold_left (forProviderField ns) forProvider
        match asMap (Index forProvider "labels") with
        | Some labels =>
            exactSpecLabel labels "environment" ns
              "Resource spec has 'environment' label in forProvider.labels" 0.7%float
              (exactSpecLabel labels "namespace" ns
                 "Resource spec has 'namespace' label in forProvider.labels" 0.9%float
                 (exactSpecLabel labels "kubernetes-namespace" ns
                    "Resource spec has 'kubernetes-namespace' label in forProvider.labels"
                    0.9%float st))
        | None => st
        end
  | None => st
  end.
Proof.
  unfold specSignals, forProviderOf.
  destruct (asMap (Index (Object resource) "spec")) as [spec|]; [|reflexivity].
  reflexivity.
Qed.

Lemma grows_specSignals resource ns st : grows st (specSignals resource ns st).
Proof.
  rewrite specSignals_forProviderOf.
  destruct (forProviderOf resource) as [fp|]; [|apply grows_refl].
  eapply grows_trans; [|apply grows_fold; intros; apply grows_forProviderField].
  destruct (asMap (Index fp "labels")) as [labels|]; [|apply grows_refl].
  eapply grows_trans; [|apply grows_exactSpecLabel].
  eapply grows_trans; [|apply grows_exactSpecLabel].
  apply grows_exactSpecLabel.
Qed.

Lemma grows_nonempty st st' : grows st st' -> scores st <> [] -> scores st' <> [].
Proof.
  intros (_ & ws & _ & Hw) Hne. rewrite Hw.
  destruct (scores st); [congruence | discriminate].
Qed.

Lemma fire_nonempty reason w st : scores (fire reason w st) <> [].
Proof. unfold fire; cbn [scores]. destruct (scores st); discriminate. Qed.

(** ** When the individual signals fire *)

Lemma exactLabel_fires labels key ns reason w st :
  Index labels key = Some ns ->
  exactLabel labels key ns reason w st = fire reason w st.
Proof. intros H. unfold exactLabel. now rewrite H, String.eqb_refl. Qed.

Lemma exactSpecLabel_fires labels key ns reason w st :
  asString (Index labels key) = Some ns ->
  exactSpecLabel labels key ns reason w st = fire reason w st.
Proof. intros H. unfold exactSpecLabel. now rewrite H, String.eqb_refl. Qed.

Lemma HasPrefix_refl s : strings.HasPrefix s s = true.
Proof.
  induction s as [|c s IH]; [reflexivity|]. simpl.
  now rewrite Ascii.eqb_refl, IH.
Qed.

Lemma Contains_refl s : strings.Contains s s = true.
Proof. destruct s; simpl; [reflexivity|]. now rewrite Ascii.eqb_refl, HasPrefix_refl. Qed.

Lemma Index_In {A} (m : list (string * A)) key v :
  Index m key = Some v -> In (key, v) m.
Proof.
  induction m as [|[k x] m IH]; simpl; [discriminate|].
  destruct (String.eqb k key) eqn:E.
  - apply String.eqb_eq in E. intros [= ->]. subst. now left.
  - intros H. right. now apply IH.
Qed.

Lemma otherLabel_fold_fires ns key labels : forall st,
  In (key, ns) labels ->
  key <> "kubernetes-namespace" -> key <> "namespace" -> key <> "environment" ->
  scores (fold_left (otherLabel ns) labels st) <> [].
Proof.
  induction labels as [|[k v] labels IH]; intros st Hin H1 H2 H3; [destruct Hin|].
  simpl. destruct Hin as [[= -> ->]|Hin].
  - eapply grows_nonempty; [apply grows_fold; intros; apply grows_otherLabel|].
    apply String.eqb_neq in H1, H2, H3.
    rewrite H1, H2, H3, Contains_refl. apply fire_nonempty.
  - now apply IH.
Qed.

(** C7. For every resource whose [kubernetes-namespace] label is exactly
    the target name and on which a single signal fired in all, the
    confidence is at least 0.85. *)
Theorem namespace_label_alone_scores_high (resource : Unstructured)
    (namespace : string) :
  Index (GetLabels resource) "kubernetes-namespace" = Some namespace ->
  length (scores (collectSignals resource namespace)) = 1 ->
  (0.85 <=? snd (evaluateResourceMatchForNamespace resource namespace))%float = true.
Proof.
  intros Hlabel Hone.
  assert (Hs : scores (collectSignals resource namespace) = [0.9%float]).
  { revert Hone. unfold collectSignals, labelSignals.
    set (st1 := nameSignal resource namespace noSignals).
    rewrite (exactLabel_fires _ _ _ _ _ st1 Hlabel).
    set (st2 := fire _ _ st1).
    match goal with |- context [specSignals _ _ ?st] => set (st3 := st) end.
    assert (G : grows st2 (specSignals resource namespace st3)).
    { eapply grows_trans; [|apply grows_specSignals]. subst st3.
      eapply grows_trans; [|apply grows_fold; intros; apply grows_otherLabel].
      eapply grows_trans; [|apply grows_exactLabel]. apply grows_exactLabel. }
    destruct G as (rs & ws & _ & Hw). rewrite Hw.
    subst st2. unfold fire; cbn [scores]. rewrite !length_app. simpl.
    intros Hlen. destruct (scores st1) as [|? ?]; [|simpl in Hlen; lia].
    destruct ws as [|? ?]; [reflexivity | simpl in Hlen; lia]. }
  unfold evaluateResourceMatchForNamespace. rewrite Hs.
  vm_compute. reflexivity.
Qed.

Lemma namespace_label_alone_scores_high_witness :
  let resource := {| GetAPIVersion := "sql.gcp.upbound.io/v1beta1";
                     GetKind := "DatabaseInstance";
                     GetName := "orders-db";
                     GetLabels := [("kubernetes-namespace", "billing")];
                     Object := [] |} in
  (0.85 <=? snd (evaluateResourceMatchForNamespace resource "billing"))%float = true.
Proof.
  apply namespace_label_alone_scores_high; reflexivity.
Defined.

(** C9 (as amended). The scorer fires a signal whenever the target name
    is exactly the value of one of the labels [kubernetes-namespace],
    [namespace], [environment], [workload-name] or [app] of the top-level
    label map, or of one of [kubernetes-namespace], [namespace] or
    [environment] in [spec.forProvider.labels]. *)
Theorem well_known_labels_fire (resource : Unstructured)
    (namespace key : string) :
  (In key ["kubernetes-namespace"; "namespace"; "environment"; "workload-name"; "app"]
   /\ Index (GetLabels resource) key = Some namespace)
  \/ (In key ["kubernetes-namespace"; "namespace"; "environment"]
      /\ exists labels, nestedLabelsOf resource = Some labels
                        /\ asString (Index labels key) = Some namespace) ->
  scores (collectSignals resource namespace) <> [].
Proof.
  intros [[Hkey Hlabel]|[Hkey (labels & Hnested & Hlabel)]]; unfold collectSignals.
  - eapply grows_nonempty; [apply grows_specSignals|].
    unfold labelSignals.
    set (st1 := nameSignal resource namespace noSignals).
    simpl in Hkey.
    destruct Hkey as [<-|[<-|[<-|Hkey]]].
    + eapply grows_nonempty;
        [eapply grows_trans;
           [eapply grows_trans; [apply grows_exactLabel | apply grows_exactLabel]
           | apply grows_fold; intros; apply grows_otherLabel]|].
      rewrite (exactLabel_fires _ _ _ _ _ _ Hlabel). apply fire_nonempty.
    + eapply grows_nonempty;
        [eapply grows_trans;
           [apply grows_exactLabel | apply grows_fold; intros; apply grows_otherLabel]|].
      rewrite (exactLabel_fires _ _ _ _ _ _ Hlabel). apply fire_nonempty.
    + eapply grows_nonempty; [apply grows_fold; intros; apply grows_otherLabel|].
      rewrite (exactLabel_fires _ _ _ _ _ _ Hlabel). apply fire_nonempty.
    + apply (otherLabel_fold_fires namespace key).
      * now apply Index_In.
      * destruct Hkey as [<-|[<-|[]]]; discriminate.
      * destruct Hkey as [<-|[<-|[]]]; discriminate.
      * destruct Hkey as [<-|[<-|[]]]; discriminate.
  - rewrite specSignals_forProviderOf.
    unfold nestedLabelsOf in Hnested.
    destruct (forProviderOf resource) as [fp|]; [|discriminate].
    rewrite Hnested.
    eapply grows_nonempty; [apply grows_fold; intros; apply grows_forProviderField|].
    simpl in Hkey. destruct Hkey as [<-|[<-|[<-|[]]]].
    + eapply grows_nonempty;
        [eapply grows_trans; [apply grows_exactSpecLabel | apply grows_exactSpecLabel]|].
      rewrite (exactSpecLabel_fires _ _ _ _ _ _ Hlabel). apply fire_nonempty.
    + eapply grows_nonempty; [apply grows_exactSpecLabel|].
      rewrite (exactSpecLabel_fires _ _ _ _ _ _ Hlabel). apply fire_nonempty.
    + rewrite (exactSpecLabel_fires _ _ _ _ _ _ Hlabel). apply fire_nonempty.
Qed.

Lemma well_known_labels_fire_witness :
  let resource := {| GetAPIVersion := "storage.gcp.upbound.io/v1beta1";
                     GetKind := "Bucket";
                     GetName := "assets";
                     GetLabels := [("team", "web"); ("app", "billing")];
                     Object := [] |} in
  scores (collectSignals resource "billing") <> [].
Proof.
  apply (well_known_labels_fire _ "billing" "app").
  left. split; [simpl; tauto | reflexivity].
Defined.

(** C9 (as stated) fails: an [app] label equal to the target name inside
    [spec.forProvider.labels] fires no signal. *)
Lemma nested_app_label_does_not_fire :
  let resource :=
    {| GetAPIVersion := "storage.gcp.upbound.io/v1beta1";
       GetKind := "Bucket";
       GetName := "assets";
       GetLabels := [];
       Object := [("spec", VMap [("forProvider",
                     VMap [("labels", VMap [("app", VString "billing")])])])] |} in
  (exists labels, nestedLabelsOf resource = Some labels
                  /\ asString (Index labels "app") = Some "billing")
  /\ scores (collectSignals resource "billing") = []
  /\ evaluateResourceMatchForNamespace resource "billing" = ([], 0%float).
Proof.
  split; [|split; reflexivity].
  eexists. split; reflexivity.
Qed.

(** ** Enumeration order *)

Lemma Index_None {A} (m : list (string * A)) key :
  Index m key = None <-> ~ In key (map fst m).
Proof.
  induction m as [|[k x] m IH]; simpl; [tauto|].
  destruct (String.eqb k key) eqn:E.
  - apply String.eqb_eq in E. split; [discriminate | tauto].
  - apply String.eqb_neq in E. rewrite IH. tauto.
Qed.

Lemma In_Index {A} (m : list (string * A)) key v :
  List.NoDup (map fst m) -> In (key, v) m -> Index m key = Some v.
Proof.
  induction m as [|[k x] m IH]; simpl; [tauto|].
  intros Hnd [[= -> ->]|Hin].
  - now rewrite String.eqb_refl.
  - inversion Hnd as [|? ? Hk Hm]; subst.
    destruct (String.eqb k key) eqn:E; [|now apply IH].
    apply String.eqb_eq in E. subst k. exfalso. apply Hk.
    change key with (fst (key, v)). now apply in_map.
Qed.

Lemma Index_Permutation {A} (m m' : list (string * A)) key :
  List.NoDup (map fst m) -> Permutation m m' -> Index m key = Index m' key.
Proof.
  intros Hnd Hp.
  assert (Hnd' : List.NoDup (map fst m')).
  { eapply Permutation_NoDup; [apply Permutation_map, Hp | exact Hnd]. }
  destruct (Index m key) as [v|] eqn:E.
  - symmetry. apply In_Index; [exact Hnd'|].
    eapply Permutation_in; [exact Hp | now apply Index_In].
  - symmetry. apply Index_None. apply Index_None in E. intros Hin. apply E.
    eapply Permutation_in; [apply Permutation_sym, Permutation_map, Hp | exact Hin].
Qed.

Lemma similar_refl st : similar st st.
Proof. split; reflexivity. Qed.

Lemma similar_trans st1 st2 st3 : similar st1 st2 -> similar st2 st3 -> similar st1 st3.
Proof.
  intros [Hs1 Hr1] [Hs2 Hr2]. split; [congruence|].
  eapply Permutation_trans; eassumption.
Qed.

Lemma similar_fire reason w st st' :
  similar st st' -> similar (fire reason w st) (fire reason w st').
Proof.
  intros [Hs Hr]. split; unfold fire; cbn [scores matchReasons].
  - now rewrite Hs.
  - now apply Permutation_app_tail.
Qed.

Lemma similar_fireIf {A} test reason w (x : A) st st' :
  similar st st' -> similar (fireIf test reason w st x) (fireIf test reason w st' x).
Proof. intros H. unfold fireIf. destruct (test x); auto using similar_fire. Qed.

Lemma similar_fold_fireIf {A} test reason w (l : list A) : forall st st',
  similar st st' ->
  similar (fold_left (fireIf test reason w) l st)
          (fold_left (fireIf test reason w) l st').
Proof.
  induction l as [|x l IH]; intros st st' H; simpl; [exact H|].
  apply IH, similar_fireIf, H.
Qed.

(** Two consecutive iterations commute: the weight is the same for every
    entry, only the reasons change places. *)
Lemma fireIf_swap {A} test reason w (x y : A) st :
  similar (fireIf test reason w (fireIf test reason w st x) y)
          (fireIf test reason w (fireIf test reason w st y) x).
Proof.
  unfold fireIf. destruct (test x), (test y); try apply similar_refl.
  split; unfold fire; cbn [scores matchReasons]; [reflexivity|].
  rewrite <- !app_assoc. apply Permutation_app_head. simpl. apply perm_swap.
Qed.

Lemma similar_fold_Permutation {A} test reason w (l l' : list A) :
  Permutation l l' -> forall st st',
  similar st st' ->
  similar (fold_left (fireIf test reason w) l st)
          (fold_left (fireIf test reason w) l' st').
Proof.
  induction 1 as [|x l l' Hp IH|x y l|l1 l2 l3 Hp1 IH1 Hp2 IH2]; intros st st' H.
  - exact H.
  - simpl. apply IH, similar_fireIf, H.
  - simpl. eapply similar_trans.
    + apply similar_fold_fireIf, fireIf_swap.
    + apply similar_fold_fireIf, similar_fireIf, similar_fireIf, H.
  - eapply similar_trans; [apply IH1, H | apply IH2, similar_refl].
Qed.

Lemma otherLabel_fireIf ns st entry :
  otherLabel ns st entry
  = fireIf (fun entry : string * string =>
              negb (String.eqb (fst entry) "kubernetes-namespace")
              && negb (String.eqb (fst entry) "namespace")
              && negb (String.eqb (fst entry) "environment")
              && strings.Contains (strings.ToLower (snd entry)) (strings.ToLower ns))
           (fun entry => "Resource has label '" +:+ fst entry
                         +:+ "' with value containing namespace")
           0.6%float st entry.
Proof. destruct entry as [key value]. reflexivity. Qed.

Lemma forProviderField_fireIf ns st entry :
  forProviderField ns st entry
  = fireIf (fun entry : string * Value =>
              match snd entry with
              | VString strValue =>
                  strings.Contains (strings.ToLower strValue) (strings.ToLower ns)
              | _ => false
              end)
           (fun entry => "Resource spec.forProvider." +:+ fst entry
                         +:+ " contains namespace")
           0.5%float st entry.
Proof.
  destruct entry as [key value]. unfold forProviderField, fireIf.
  destruct value; reflexivity.
Qed.

Lemma fold_ext {A B} (f g : B -> A -> B) (l : list A) :
  (forall b a, f b a = g b a) -> forall b, fold_left f l b = fold_left g l b.
Proof.
  intros H. induction l as [|a l IH]; intros b; simpl; [reflexivity|].
  now rewrite H, IH.
Qed.

Lemma similar_exactLabel labels labels' key ns reason w st st' :
  Index labels key = Index labels' key -> similar st st' ->
  similar (exactLabel labels key ns reason w st)
          (exactLabel labels' key ns reason w st').
Proof.
  intros HI H. unfold exactLabel. rewrite <- HI.
  destruct (Index labels key) as [v|]; [|exact H].
  destruct (String.eqb v ns); auto using similar_fire.
Qed.

Lemma similar_exactSpecLabel labels key ns reason w st st' :
  similar st st' ->
  similar (exactSpecLabel labels key ns reason w st)
          (exactSpecLabel labels key ns reason w st').
Proof.
  intros H. unfold exactSpecLabel.
  destruct (asString (Index labels key)) as [v|]; [|exact H].
  destruct (String.eqb v ns); auto using similar_fire.
Qed.

Lemma similar_collectSignals r1 r2 ns :
  sameUpToEnumeration r1 r2 ->
  similar (collectSignals r1 ns) (collectSignals r2 ns).
Proof.
  intros (Hname & Hnd & Hperm & Hfp). unfold collectSignals.
  assert (H1 : similar (nameSignal r1 ns noSignals) (nameSignal r2 ns noSignals)).
  { unfold nameSignal. rewrite Hname. apply similar_refl. }
  assert (H2 : similar (labelSignals r1 ns (nameSignal r1 ns noSignals))
                       (labelSignals r2 ns (nameSignal r2 ns noSignals))).
  { unfold labelSignals.
    rewrite (fold_ext _ _ (GetLabels r1) (otherLabel_fireIf ns)).
    rewrite (fold_ext _ _ (GetLabels r2) (otherLabel_fireIf ns)).
    apply similar_fold_Permutation; [exact Hperm|].
    repeat (apply similar_exactLabel; [now apply Index_Permutation|]).
    exact H1. }
  rewrite !specSignals_forProviderOf.
  destruct (forProviderOf r1) as [fp1|], (forProviderOf r2) as [fp2|];
    try contradiction; [|exact H2].
  destruct Hfp as [Hnd1 Hp1].
  rewrite (fold_ext _ _ fp1 (forProviderField_fireIf ns)).
  rewrite (fold_ext _ _ fp2 (forProviderField_fireIf ns)).
  apply similar_fold_Permutation; [exact Hp1|].
  rewrite <- (Index_Permutation fp1 fp2 "labels" Hnd1 Hp1).
  destruct (asMap (Index fp1 "labels")) as [labels|]; [|exact H2].
  repeat apply similar_exactSpecLabel. exact H2.
Qed.

(** C10. Two runs of the scorer on one resource and target name that
    enumerate the top-level label map or the [spec.forProvider] entries
    in different orders return equal confidence scores, and the same
    reasons up to their order. *)
Theorem confidence_independent_of_enumeration (r1 r2 : Unstructured)
    (namespace : string) :
  sameUpToEnumeration r1 r2 ->
  snd (evaluateResourceMatchForNamespace r1 namespace)
  = snd (evaluateResourceMatchForNamespace r2 namespace)
  /\ Permutation (fst (evaluateResourceMatchForNamespace r1 namespace))
                 (fst (evaluateResourceMatchForNamespace r2 namespace)).
Proof.
  intros Hsame.
  destruct (similar_collectSignals r1 r2 namespace Hsame) as [Hs Hr].
  unfold evaluateResourceMatchForNamespace. rewrite <- Hs.
  destruct (scores (collectSignals r1 namespace)); simpl; auto.
Qed.

Lemma confidence_independent_of_enumeration_witness :
  let forProvider1 := [("region", VString "billing-eu"); ("zone", VString "billing-a")] in
  let forProvider2 := [("zone", VString "billing-a"); ("region", VString "billing-eu")] in
  let r1 := {| GetAPIVersion := "compute.gcp.upbound.io/v1beta1";
               GetKind := "Instance"; GetName := "web-1";
               GetLabels := [("team", "billing"); ("owner", "billing-ops")];
               Object := [("spec", VMap [("forProvider", VMap forProvider1)])] |} in
  let r2 := {| GetAPIVersion := "compute.gcp.upbound.io/v1beta1";
               GetKind := "Instance"; GetName := "web-1";
               GetLabels := [("owner", "billing-ops"); ("team", "billing")];
               Object := [("spec", VMap [("forProvider", VMap forProvider2)])] |} in
  snd (evaluateResourceMatchForNamespace r1 "billing")
  = snd (evaluateResourceMatchForNamespace r2 "billing")
  /\ Permutation (fst (evaluateResourceMatchForNamespace r1 "billing"))
                 (fst (evaluateResourceMatchForNamespace r2 "billing")).
Proof.
  apply confidence_independent_of_enumeration.
  split; [reflexivity|]. split.
  { simpl. repeat constructor; simpl; intuition discriminate. }
  split; [apply perm_swap|]. simpl. split.
  { repeat constructor; simpl; intuition discriminate. }
  apply perm_swap.
Defined.

End Scorer.

(** * Sorting by confidence *)

Section Sorting.

Implicit Types (p a b : ResourceMatch) (l pre rest todo : list ResourceMatch).

Lemma insert_middle pre p y rest :
  <[length pre := y]> (pre ++ p :: rest) = pre ++ y :: rest.
Proof. rewrite insert_app_r_alt by lia. now rewrite Nat.sub_diag. Qed.

Lemma swap_middle pre p finished y todo :
  swap (pre ++ p :: finished ++ y :: todo)
       (length pre) (length pre + 1 + length finished)
  = pre ++ y :: finished ++ p :: todo.
Proof.
  assert (E : forall x, pre ++ x :: finished ++ y :: todo
                        = (pre ++ x :: finished) ++ y :: todo)
    by (intros; now rewrite <- app_assoc).
  assert (Ej : forall x, length pre + 1 + length finished
                         = length (pre ++ x :: finished))
    by (intros; rewrite length_app; simpl; lia).
  unfold swap.
  rewrite (list_lookup_middle pre (finished ++ y :: todo) p (length pre) eq_refl).
  rewrite (E p) at 1.
  rewrite (list_lookup_middle (pre ++ p :: finished) todo y
             (length pre + 1 + length finished) (Ej p)).
  rewrite insert_middle, (E y), (Ej y), insert_middle.
  now rewrite <- app_assoc.
Qed.

Lemma compareSwap_middle pre p finished y todo :
  compareSwap (pre ++ p :: finished ++ y :: todo)
              (length pre) (length pre + 1 + length finished)
  = if (ConfidenceScore p <? ConfidenceScore y)%float
    then pre ++ y :: finished ++ p :: todo
    else pre ++ p :: finished ++ y :: todo.
Proof.
  pose proof (swap_middle pre p finished y todo) as Hswap.
  assert (E : pre ++ p :: finished ++ y :: todo
              = (pre ++ p :: finished) ++ y :: todo)
    by (now rewrite <- app_assoc).
  assert (Ej : length pre + 1 + length finished
               = length (pre ++ p :: finished))
    by (rewrite length_app; simpl; lia).
  unfold compareSwap.
  rewrite (list_lookup_middle pre (finished ++ y :: todo) p (length pre) eq_refl).
  rewrite E at 1.
  rewrite (list_lookup_middle (pre ++ p :: finished) todo y
             (length pre + 1 + length finished) Ej).
  destruct (ConfidenceScore p <? ConfidenceScore y)%float; [exact Hswap|reflexivity].
Qed.

(** The inner loop is [bubbleMax] on the elements after position [i]. *)
Lemma innerLoop_bubbleMax todo : forall pre p finished,
  innerLoop (length todo) (length pre) (length pre + 1 + length finished)
            (pre ++ p :: finished ++ todo)
  = pre ++ fst (bubbleMax p todo) :: finished ++ snd (bubbleMax p todo).
Proof.
  induction todo as [|y todo IH]; intros pre p finished; [reflexivity|].
  cbn [length innerLoop]. rewrite compareSwap_middle.
  cbn [bubbleMax].
  destruct (ConfidenceScore p <? ConfidenceScore y)%float.
  - replace (pre ++ y :: finished ++ p :: todo)
      with (pre ++ y :: (finished ++ [p]) ++ todo)
      by (now rewrite <- app_assoc).
    replace (S (length pre + 1 + length finished))
      with (length pre + 1 + length (finished ++ [p]))
      by (rewrite length_app; simpl; lia).
    rewrite IH. destruct (bubbleMax y todo) as [p' r]. simpl.
    now rewrite <- app_assoc.
  - replace (pre ++ p :: finished ++ y :: todo)
      with (pre ++ p :: (finished ++ [y]) ++ todo)
      by (now rewrite <- app_assoc).
    replace (S (length pre + 1 + length finished))
      with (length pre + 1 + length (finished ++ [y]))
      by (rewrite length_app; simpl; lia).
    rewrite IH. destruct (bubbleMax p todo) as [p' r]. simpl.
    now rewrite <- app_assoc.
Qed.

Lemma bubbleMax_length rest : forall p, length (snd (bubbleMax p rest)) = length rest.
Proof.
  induction rest as [|y rest IH]; intros p; [reflexivity|]. simpl.
  destruct (ConfidenceScore p <? ConfidenceScore y)%float.
  - specialize (IH y). destruct (bubbleMax y rest). simpl in *. now rewrite IH.
  - specialize (IH p). destruct (bubbleMax p rest). simpl in *. now rewrite IH.
Qed.

(** The outer loop is [exchangeSort] on the elements from position [i]. *)
Lemma outerLoop_exchangeSort n : forall pre l,
  length l = n ->
  outerLoop n (length pre) (pre ++ l) = pre ++ exchangeSort n l.
Proof.
  induction n as [|n IH]; intros pre l Hlen; [reflexivity|].
  destruct l as [|p rest]; [discriminate|].
  cbn [outerLoop exchangeSort].
  replace (length (pre ++ p :: rest) - S (length pre)) with (length rest)
    by (rewrite length_app; simpl; lia).
  pose proof (innerLoop_bubbleMax rest pre p []) as Hinner.
  cbn [length app] in Hinner.
  replace (length pre + 1 + 0) with (S (length pre)) in Hinner by lia.
  rewrite Hinner.
  pose proof (bubbleMax_length rest p) as Hr.
  destruct (bubbleMax p rest) as [p' r]. cbn [fst snd] in *.
  replace (pre ++ p' :: r) with ((pre ++ [p']) ++ r) by (now rewrite <- app_assoc).
  replace (S (length pre)) with (length (pre ++ [p']))
    by (rewrite length_app; simpl; lia).
  rewrite IH by (simpl in Hlen; lia). now rewrite <- app_assoc.
Qed.

Lemma sortMatchesByConfidence_exchangeSort l :
  sortMatchesByConfidence l = exchangeSort (length l) l.
Proof.
  unfold sortMatchesByConfidence.
  exact (outerLoop_exchangeSort (length l) [] l eq_refl).
Qed.

(** What one run of the inner loop achieves. *)
Lemma bubbleMax_spec rest : forall p,
  let '(p', r) := bubbleMax p rest in
  Permutation (p :: rest) (p' :: r)
  /\ Forall (notBelow p') r
  /\ (p' = p \/ (ConfidenceScore p <? ConfidenceScore p')%float = true).
Proof.
  induction rest as [|y rest IH]; intros p; simpl.
  { repeat split; auto. }
  destruct (ConfidenceScore p <? ConfidenceScore y)%float eqn:Hlt.
  - specialize (IH y). destruct (bubbleMax y rest) as [p' r].
    destruct IH as (Hperm & Hall & Hmax).
    assert (Hp : (ConfidenceScore p <? ConfidenceScore p')%float = true).
    { destruct Hmax as [->|Hmax]; [exact Hlt|].
      eapply Binary64.ltb_trans; eassumption. }
    repeat split.
    + eapply Permutation_trans; [apply perm_skip, Hperm|]. apply perm_swap.
    + constructor; [|exact Hall]. apply Binary64.ltb_asym, Hp.
    + now right.
  - specialize (IH p). destruct (bubbleMax p rest) as [p' r].
    destruct IH as (Hperm & Hall & Hmax).
    repeat split.
    + eapply Permutation_trans; [apply perm_swap|].
      eapply Permutation_trans; [apply perm_skip, Hperm|]. apply perm_swap.
    + constructor; [|exact Hall]. unfold notBelow.
      destruct Hmax as [->|Hmax]; [exact Hlt|].
      destruct (ConfidenceScore p' <? ConfidenceScore y)%float eqn:Hy; [|reflexivity].
      rewrite <- Hlt. symmetry. eapply Binary64.ltb_trans; eassumption.
    + exact Hmax.
Qed.

Lemma exchangeSort_Permutation n : forall l, Permutation l (exchangeSort n l).
Proof.
  induction n as [|n IH]; intros [|p rest]; simpl; try reflexivity.
  pose proof (bubbleMax_spec rest p) as H.
  destruct (bubbleMax p rest) as [p' r]. destruct H as (Hperm & _ & _).
  eapply Permutation_trans; [exact Hperm|]. apply perm_skip, IH.
Qed.

Lemma exchangeSort_descending n : forall l,
  length l <= n -> descending (exchangeSort n l).
Proof.
  induction n as [|n IH]; intros [|p rest] Hlen; simpl in *;
    try constructor; try lia.
  pose proof (bubbleMax_spec rest p) as H.
  pose proof (bubbleMax_length rest p) as Hr.
  destruct (bubbleMax p rest) as [p' r]. destruct H as (_ & Hall & _).
  simpl in Hr. constructor.
  - apply IH. lia.
  - eapply Permutation_Forall; [apply exchangeSort_Permutation | exact Hall].
Qed.

Lemma sort_Permutation l : Permutation l (sortMatchesByConfidence l).
Proof. rewrite sortMatchesByConfidence_exchangeSort. apply exchangeSort_Permutation. Qed.

Lemma sort_descending l : descending (sortMatchesByConfidence l).
Proof.
  rewrite sortMatchesByConfidence_exchangeSort.
  now apply exchangeSort_descending.
Qed.

End Sorting.

(** * The match resolver *)

Section Resolver.

Variable namespace : string.

Lemma scanItem_unfold matches found item :
  scanItem namespace (matches, found) item
  = if bool_decide (itemKey item ∈ found) then (matches, found)
    else if accepted namespace item
         then (matches ++ [matchOf namespace item], {[itemKey item]} ∪ found)
         else (matches, found).
Proof.
  unfold scanItem, accepted, matchOf, itemKey.
  destruct (evaluateResourceMatchForNamespace item namespace) as [reasons confidence].
  reflexivity.
Qed.

Lemma scanTypes_flat (client : Backend) (types : list GroupVersionResource) :
  forall acc,
  fold_left (scanType client namespace) types acc
  = fold_left (scanItem namespace)
      (flat_map (fun gvr => default [] (List_ client gvr)) types) acc.
Proof.
  induction types as [|gvr types IH]; intros acc; simpl; [reflexivity|].
  rewrite fold_left_app, <- IH. unfold scanType at 2.
  destruct (List_ client gvr); reflexivity.
Qed.

Lemma metadataPass_allItems (client : Backend) :
  metadataPass client namespace
  = fold_left (scanItem namespace) (allItems client) ([], ∅).
Proof. apply scanTypes_flat. Qed.

(** ** Which resources the first pass keeps *)

Lemma nil_or_snoc {A} (l : list A) : l = [] \/ exists l' a, l = l' ++ [a].
Proof. induction l using rev_ind; [now left | right; eauto]. Qed.

Lemma firstAccepted_snoc finished x item :
  firstAccepted namespace (finished ++ [x]) item
  <-> firstAccepted namespace finished item
      \/ (item = x /\ accepted namespace x = true
          /\ Forall (fun item' => itemKey item' = itemKey x ->
                                  accepted namespace item' = false) finished).
Proof.
  split.
  - intros (before & after & Heq & Hacc & Hfirst).
    destruct (nil_or_snoc after) as [->|(after' & a & ->)].
    + apply app_inj_tail in Heq as [-> ->]. right. auto.
    + rewrite app_comm_cons, app_assoc in Heq.
      apply app_inj_tail in Heq as [-> ->]. left.
      exists before, after'. auto.
  - intros [(before & after & -> & Hacc & Hfirst)|(-> & Hacc & Hfirst)].
    + exists before, (after ++ [x]). rewrite <- app_assoc. auto.
    + exists finished, []. auto.
Qed.

Lemma keeps_step finished acc x :
  keeps namespace finished acc -> keeps namespace (finished ++ [x]) (scanItem namespace acc x).
Proof.
  destruct acc as [matches found]. intros [Hm Hf].
  rewrite scanItem_unfold. cbn [fst snd] in *.
  destruct (bool_decide (itemKey x ∈ found)) eqn:Hfound.
  - apply bool_decide_eq_true in Hfound.
    apply Hf in Hfound as (item0 & Hin0 & Hkey0 & Hacc0).
    split; cbn [fst snd].
    + intros m. rewrite Hm. split.
      * intros (item & -> & Hfirst). exists item. split; [reflexivity|].
        apply firstAccepted_snoc. now left.
      * intros (item & -> & Hfirst). exists item. split; [reflexivity|].
        apply firstAccepted_snoc in Hfirst as [Hfirst|(-> & _ & Hall)]; [exact Hfirst|].
        rewrite List.Forall_forall in Hall. specialize (Hall item0 Hin0 Hkey0). congruence.
    + intros k. rewrite Hf. split.
      * intros (item & Hin & Hk & Hacc). exists item.
        rewrite in_app_iff. auto.
      * intros (item & Hin & Hk & Hacc).
        apply in_app_iff in Hin as [Hin|[<-|[]]]; [now exists item|].
        exists item0. subst k. auto.
  - apply bool_decide_eq_false in Hfound.
    assert (Hnone : Forall (fun item' => itemKey item' = itemKey x ->
                                         accepted namespace item' = false) finished).
    { apply List.Forall_forall. intros item' Hin Hkey.
      destruct (accepted namespace item') eqn:Hacc; [|reflexivity].
      exfalso. apply Hfound. apply Hf. now exists item'. }
    destruct (accepted namespace x) eqn:Hacc; split; cbn [fst snd].
    + intros m. rewrite in_app_iff, Hm. split.
      * intros [(item & -> & Hfirst)|[<-|[]]].
        -- exists item. split; [reflexivity|]. apply firstAccepted_snoc. now left.
        -- exists x. split; [reflexivity|]. apply firstAccepted_snoc. right. auto.
      * intros (item & -> & Hfirst).
        apply firstAccepted_snoc in Hfirst as [Hfirst|(-> & _ & _)].
        -- left. now exists item.
        -- right. now left.
    + intros k. rewrite elem_of_union, elem_of_singleton, Hf. split.
      * intros [->|(item & Hin & Hk & Hacc')].
        -- exists x. rewrite in_app_iff. simpl. auto.
        -- exists item. rewrite in_app_iff. auto.
      * intros (item & Hin & Hk & Hacc').
        apply in_app_iff in Hin as [Hin|[<-|[]]]; [right; now exists item | now left].
    + intros m. rewrite Hm. split.
      * intros (item & -> & Hfirst). exists item. split; [reflexivity|].
        apply firstAccepted_snoc. now left.
      * intros (item & -> & Hfirst). exists item. split; [reflexivity|].
        apply firstAccepted_snoc in Hfirst as [Hfirst|(-> & Hacc' & _)];
          [exact Hfirst | congruence].
    + intros k. rewrite Hf. split.
      * intros (item & Hin & Hk & Hacc'). exists item. rewrite in_app_iff. auto.
      * intros (item & Hin & Hk & Hacc').
        apply in_app_iff in Hin as [Hin|[<-|[]]]; [now exists item | congruence].
Qed.

Lemma keeps_fold todo : forall finished acc,
  keeps namespace finished acc ->
  keeps namespace (finished ++ todo) (fold_left (scanItem namespace) todo acc).
Proof.
  induction todo as [|x todo IH]; intros finished acc H; simpl.
  - now rewrite app_nil_r.
  - replace (finished ++ x :: todo) with ((finished ++ [x]) ++ todo)
      by (now rewrite <- app_assoc).
    apply IH, keeps_step, H.
Qed.

Lemma keeps_nil : keeps namespace [] ([], ∅).
Proof.
  split; cbn [fst snd].
  - intros m. split; [intros []|].
    intros (item & _ & before & after & Heq & _). now destruct before.
  - intros k. split; [intros H; now apply not_elem_of_empty in H|].
    intros (item & [] & _).
Qed.

Lemma metadataPass_keeps (client : Backend) :
  keeps namespace (allItems client) (metadataPass client namespace).
Proof.
  rewrite metadataPass_allItems.
  exact (keeps_fold (allItems client) [] _ keeps_nil).
Qed.

(** ** Keys stay distinct *)

Lemma distinctKeys_append matches found m key :
  matchKey m = key -> key ∉ found ->
  distinctKeys (matches, found) ->
  distinctKeys (matches ++ [m], {[key]} ∪ found).
Proof.
  intros Hkey Hfresh [Hnd Hsub]. cbn [fst snd] in *. split; cbn [fst snd].
  - rewrite map_app. simpl. rewrite Hkey.
    eapply Permutation_NoDup; [apply Permutation_cons_append|].
    constructor; [|exact Hnd].
    intros Hin. apply Hfresh, Hsub, Hin.
  - intros k. rewrite map_app, in_app_iff. simpl. rewrite Hkey.
    rewrite elem_of_union, elem_of_singleton.
    intros [Hin|[<-|[]]]; [right; exact (Hsub k Hin) | now left].
Qed.

Lemma distinctKeys_scanItem acc item :
  distinctKeys acc -> distinctKeys (scanItem namespace acc item).
Proof.
  destruct acc as [matches found]. intros H. rewrite scanItem_unfold.
  destruct (bool_decide (itemKey item ∈ found)) eqn:Hfound; [exact H|].
  apply bool_decide_eq_false in Hfound.
  destruct (accepted namespace item); [|exact H].
  now apply distinctKeys_append.
Qed.

Lemma distinctKeys_fold {A} (f : list ResourceMatch * gset string -> A ->
                                 list ResourceMatch * gset string) (l : list A) :
  (forall acc x, distinctKeys acc -> distinctKeys (f acc x)) ->
  forall acc, distinctKeys acc -> distinctKeys (fold_left f l acc).
Proof.
  intros Hf. induction l as [|x l IH]; intros acc H; simpl; auto.
Qed.

Lemma distinctKeys_metadataPass (client : Backend) :
  distinctKeys (metadataPass client namespace).
Proof.
  rewrite metadataPass_allItems.
  apply distinctKeys_fold; [apply distinctKeys_scanItem|].
  split; [constructor | intros k []].
Qed.

Lemma foundKeys_fold matches : forall (found : gset string) k,
  k ∈ fold_left (fun found m => {[matchKey m]} ∪ found) matches found
  <-> In k (map matchKey matches) \/ k ∈ found.
Proof.
  induction matches as [|m matches IH]; intros found k; simpl; [tauto|].
  rewrite IH, elem_of_union, elem_of_singleton. intuition (subst; auto).
Qed.

Lemma elem_of_foundKeys matches k :
  k ∈ foundKeys matches <-> In k (map matchKey matches).
Proof.
  unfold foundKeys. rewrite foundKeys_fold. split; [|now left].
  intros [H|H]; [exact H | now apply not_elem_of_empty in H].
Qed.

Lemma distinctKeys_connectResource client index podIP identifiers acc identifier :
  indexFaithful client index ->
  index !! podIP = Some identifiers -> In identifier identifiers ->
  distinctKeys acc -> distinctKeys (connectResource client podIP acc identifier).
Proof.
  intros Hfaithful Hlookup Hin H. destruct acc as [matches found].
  unfold connectResource.
  destruct (bool_decide (_ ∈ found)) eqn:Hfound; [exact H|].
  apply bool_decide_eq_false in Hfound.
  destruct (Get_ client _ _) as [resource|] eqn:Hget; [|exact H].
  apply distinctKeys_append; [|exact Hfound|exact H].
  destruct (Hfaithful _ _ _ _ Hlookup Hin Hget) as [Hkind Hname].
  unfold matchKey. cbn [MatchResource]. now rewrite Hkind, Hname.
Qed.

Lemma fold_left_In {A B} (P : B -> Prop) (f : B -> A -> B) (l : list A) :
  (forall b x, In x l -> P b -> P (f b x)) ->
  forall b, P b -> P (fold_left f l b).
Proof.
  induction l as [|x l IH]; intros Hf b Hb; simpl; [exact Hb|].
  apply IH; [intros; apply Hf; simpl; auto|]. apply Hf; simpl; auto.
Qed.

Lemma distinctKeys_networkPass client index matches podIPs :
  indexFaithful client index ->
  List.NoDup (map matchKey matches) ->
  distinctKeys (networkPass client index matches podIPs).
Proof.
  intros Hfaithful Hnd. unfold networkPass.
  apply distinctKeys_fold.
  - intros acc podIP Hacc. unfold connectPodIP.
    destruct (index !! podIP) as [identifiers|] eqn:Hlookup; [|exact Hacc].
    apply (fold_left_In distinctKeys); [|exact Hacc].
    intros b identifier Hin Hb.
    eapply distinctKeys_connectResource; eassumption.
  - split; [exact Hnd|]. intros k Hin. now apply elem_of_foundKeys.
Qed.

(** ** What the second pass appends *)

Lemma networkPass_appends client index matches podIPs :
  exists added,
    fst (networkPass client index matches podIPs) = matches ++ added
    /\ Forall (networkMatch client index podIPs matches) added.
Proof.
  unfold networkPass.
  set (P := fun acc : list ResourceMatch * gset string =>
              (exists added, fst acc = matches ++ added
                 /\ Forall (networkMatch client index podIPs matches) added)
              /\ forall k, In k (map matchKey matches) -> k ∈ snd acc).
  enough (HP : P (fold_left (connectPodIP client index) podIPs
                    (matches, foundKeys matches))) by exact (proj1 HP).
  apply (fold_left_In P).
  - intros acc podIP HinIP Hacc. unfold connectPodIP.
    destruct (index !! podIP) as [identifiers|] eqn:Hlookup; [|exact Hacc].
    apply (fold_left_In P); [|exact Hacc].
    intros [ms found] identifier Hin [(added & Hfst & Hall) Hsub].
    cbn [fst snd] in *. subst ms. unfold connectResource.
    destruct (bool_decide (_ ∈ found)) eqn:Hfound;
      [split; [exists added; auto | exact Hsub]|].
    apply bool_decide_eq_false in Hfound.
    destruct (Get_ client _ _) as [resource|] eqn:Hget;
      [|split; [exists added; auto | exact Hsub]].
    split; cbn [fst snd].
    + eexists (added ++ [_]). split; [now rewrite app_assoc|].
      apply Forall_app. split; [exact Hall|]. constructor; [|constructor].
      split; [reflexivity|]. split; [reflexivity|].
      exists podIP, identifiers, identifier. cbn [MatchResource MatchReasons].
      repeat split; auto.
    + intros k Hk. apply elem_of_union. right. exact (Hsub k Hk).
  - split.
    + exists []. split; [now rewrite app_nil_r | constructor].
    + intros k Hk. now apply elem_of_foundKeys.
Qed.

End Resolver.

Section ResolverClaims.

Lemma firstAccepted_nil namespace item : ~ firstAccepted namespace [] item.
Proof. intros (before & after & Heq & _). now destruct before. Qed.

(** C2 (as amended). The matches
    [FindCrossplaneResourcesForNamespaceWithConfidence] returns are those
    of the listed resources that were scored (no resource listed earlier
    under the same key had been accepted) and whose confidence exceeds
    0.3, and they come in descending order of confidence. *)
Theorem resolve_keeps_above_threshold_in_descending_order
    (env : Env) (st : State) (namespace : string) :
  let result :=
    fst (FindCrossplaneResourcesForNamespaceWithConfidence env st namespace) in
  descending result
  /\ forall m, In m result <->
               exists item, m = matchOf namespace item
                            /\ firstAccepted namespace (listedItems env st) item.
Proof.
  intros result. subst result.
  unfold FindCrossplaneResourcesForNamespaceWithConfidence, listedItems.
  destruct (mockMode (handler st)).
  - split; [constructor|]. intros m. split; [intros []|].
    intros (item & _ & Hfirst). now apply firstAccepted_nil in Hfirst.
  - destruct (staleAt env st) as [stale st']. cbn [fst].
    split; [apply sort_descending|].
    intros m. rewrite <- (proj1 (metadataPass_keeps namespace (dynamicClient env)) m).
    split; intros Hin.
    + eapply Permutation_in; [apply Permutation_sym, sort_Permutation | exact Hin].
    + eapply Permutation_in; [apply sort_Permutation | exact Hin].
Qed.

(** C2 (as stated) fails on the tie order: [billing-a] is listed before
    [billing-b], both are matched with confidence 0.8, and [billing-b]
    is returned before [billing-a]. *)
Lemma ties_do_not_keep_discovery_order :
  let result :=
    fst (FindCrossplaneResourcesForNamespaceWithConfidence
           exampleEnv exampleState "billing") in
  map GetName (allItems (dynamicClient exampleEnv))
  = ["billing-a"; "billing-b"; "ledger"; "web-1"]
  /\ map (fun m => GetName (MatchResource m)) result
     = ["ledger"; "billing-b"; "billing-a"]
  /\ map ConfidenceScore result = [0.9; 0.8; 0.8]%float.
Proof. repeat split; vm_compute; reflexivity. Qed.

(** C4. Neither resolver returns two matches with the same [kind/name]
    key: the first pass for every cluster, the network phase for every
    cluster whose index names resources as the API server returns them. *)
Theorem resolvers_return_distinct_keys
    (env : Env) (st : State) (namespace : string) (podIPs : list string) :
  List.NoDup (map matchKey
    (fst (FindCrossplaneResourcesForNamespaceWithConfidence env st namespace)))
  /\ (indexFaithful (dynamicClient env)
        (resourceIPMap (handler (snd
           (FindCrossplaneResourcesForNamespaceWithNetworking
              env st namespace podIPs)))) ->
      List.NoDup (map matchKey
        (fst (FindCrossplaneResourcesForNamespaceWithNetworking
                env st namespace podIPs)))).
Proof.
  assert (Hfirst : List.NoDup (map matchKey
    (fst (FindCrossplaneResourcesForNamespaceWithConfidence env st namespace)))).
  { unfold FindCrossplaneResourcesForNamespaceWithConfidence.
    destruct (mockMode (handler st)); [constructor|].
    destruct (staleAt env st) as [stale st']. cbn [fst].
    eapply Permutation_NoDup;
      [apply Permutation_map, sort_Permutation|].
    apply distinctKeys_metadataPass. }
  split; [exact Hfirst|].
  unfold FindCrossplaneResourcesForNamespaceWithNetworking.
  destruct (FindCrossplaneResourcesForNamespaceWithConfidence env st namespace)
    as [matches st1]. cbn [fst] in Hfirst.
  destruct ((length podIPs =? 0)%nat || mockMode (handler st1));
    [intros _; exact Hfirst|].
  cbn [fst snd]. intros Hfaithful.
  eapply Permutation_NoDup; [apply Permutation_map, sort_Permutation|].
  now apply distinctKeys_networkPass.
Qed.

Lemma exampleIndex :
  resourceIPMap (handler (snd
    (FindCrossplaneResourcesForNamespaceWithNetworking
       exampleEnv exampleState "billing" ["10.0.3.4"])))
  = {[ "10.0.3.4" := [{| Kind := "Instance"; Name := "web-1";
                         GVK := GroupVersionKindOf web1 |}] ]}.
Proof. vm_compute. reflexivity. Qed.

Lemma exampleIndex_faithful :
  indexFaithful exampleBackend
    (resourceIPMap (handler (snd
       (FindCrossplaneResourcesForNamespaceWithNetworking
          exampleEnv exampleState "billing" ["10.0.3.4"])))).
Proof.
  rewrite exampleIndex. intros podIP identifiers identifier resource Hlookup Hin Hget.
  apply lookup_singleton_Some in Hlookup as [<- <-].
  destruct Hin as [<-|[]]. vm_compute in Hget.
  injection Hget as <-. split; reflexivity.
Defined.

Lemma resolvers_return_distinct_keys_witness :
  List.NoDup (map matchKey
    (fst (FindCrossplaneResourcesForNamespaceWithNetworking
            exampleEnv exampleState "billing" ["10.0.3.4"]))).
Proof.
  apply (resolvers_return_distinct_keys exampleEnv exampleState "billing" ["10.0.3.4"]).
  exact exampleIndex_faithful.
Defined.

(** C5. With no observed address,
    [FindCrossplaneResourcesForNamespaceWithNetworking] returns the very
    list, in the same order, that
    [FindCrossplaneResourcesForNamespaceWithConfidence] returns, and
    leaves the handler in the same state. *)
Theorem networking_without_addresses_is_resolve
    (env : Env) (st : State) (namespace : string) :
  FindCrossplaneResourcesForNamespaceWithNetworking env st namespace []
  = FindCrossplaneResourcesForNamespaceWithConfidence env st namespace.
Proof.
  unfold FindCrossplaneResourcesForNamespaceWithNetworking.
  destruct (FindCrossplaneResourcesForNamespaceWithConfidence env st namespace)
    as [matches st1].
  reflexivity.
Qed.

(** C6. The result of
    [FindCrossplaneResourcesForNamespaceWithNetworking] is, up to order,
    the metadata matches followed by the matches the network phase
    added; each added match is for a resource absent from the metadata
    matches and reached through an observed address, has confidence
    exactly 0.9 and exactly one reason, which cites that address. *)
Theorem network_matches_have_fixed_confidence
    (env : Env) (st : State) (namespace : string) (podIPs : list string) :
  let metadata :=
    fst (FindCrossplaneResourcesForNamespaceWithConfidence env st namespace) in
  let outcome :=
    FindCrossplaneResourcesForNamespaceWithNetworking env st namespace podIPs in
  exists added,
    Permutation (fst outcome) (metadata ++ added)
    /\ Forall (networkMatch (dynamicClient env)
                 (resourceIPMap (handler (snd outcome))) podIPs metadata) added.
Proof.
  intros metadata outcome. subst metadata outcome.
  unfold FindCrossplaneResourcesForNamespaceWithNetworking.
  destruct (FindCrossplaneResourcesForNamespaceWithConfidence env st namespace)
    as [matches st1]. cbn [fst].
  destruct ((length podIPs =? 0)%nat || mockMode (handler st1)).
  - exists []. split; [now rewrite app_nil_r | constructor].
  - cbn [fst snd].
    destruct (networkPass_appends (dynamicClient env)
                (resourceIPMap (handler (ensureNetworkMap env st1))) matches podIPs)
      as (added & Hfst & Hall).
    exists added. split; [|exact Hall].
    rewrite <- Hfst. apply Permutation_sym, sort_Permutation.
Qed.

End ResolverClaims.

(** * The label applier *)

Section Applier.

Implicit Types (m desired : list (string * string)) (k v : string).

Lemma Index_Assign m k v k' :
  Index (Assign m k v) k' = if String.eqb k k' then Some v else Index m k'.
Proof.
  induction m as [|[k0 v0] m IH]; simpl.
  - reflexivity.
  - destruct (String.eqb k0 k) eqn:E0; simpl.
    + apply String.eqb_eq in E0. subst k0.
      destruct (String.eqb k k'); reflexivity.
    + rewrite IH. destruct (String.eqb k0 k') eqn:E1; [|reflexivity].
      apply String.eqb_eq in E1. subst k0. now rewrite String.eqb_sym, E0.
Qed.

Lemma Index_snoc {A} (l : list (string * A)) k (x : A) k' :
  Index (l ++ [(k, x)]) k'
  = match Index l k' with
    | Some y => Some y
    | None => if String.eqb k k' then Some x else None
    end.
Proof.
  induction l as [|[k0 y0] l IH]; simpl; [reflexivity|].
  destruct (String.eqb k0 k'); [reflexivity | exact IH].
Qed.

(** One iteration sets the key, whether or not it writes. *)
Lemma applyLabel_Index m changed k v k' :
  Index (fst (applyLabel (m, changed) (k, v))) k'
  = if String.eqb k k' then Some v else Index m k'.
Proof.
  unfold applyLabel.
  destruct (Index m k) as [cv|] eqn:E; [|apply Index_Assign].
  destruct (String.eqb cv v) eqn:Ev; [|apply Index_Assign].
  apply String.eqb_eq in Ev. subst cv. cbn [fst].
  destruct (String.eqb k k') eqn:Ek; [|reflexivity].
  apply String.eqb_eq in Ek. now subst k'.
Qed.

(** After the loop every key reads as its last desired value, or as
    before the loop where none is desired. *)
Lemma applyLabels_Index desired : forall m changed k',
  Index (fst (fold_left applyLabel desired (m, changed))) k'
  = match Index (rev desired) k' with
    | Some v => Some v
    | None => Index m k'
    end.
Proof.
  induction desired as [|[k v] desired IH]; intros m changed k'; [reflexivity|].
  cbn [fold_left rev].
  destruct (applyLabel (m, changed) (k, v)) as [m1 changed1] eqn:E.
  rewrite IH, Index_snoc.
  pose proof (applyLabel_Index m changed k v k') as H. rewrite E in H. cbn [fst] in H.
  rewrite H. destruct (Index (rev desired) k'); [reflexivity|].
  destruct (String.eqb k k'); reflexivity.
Qed.

(** The loop leaves the flag down exactly when every desired label is
    already there, and then it leaves the map alone. *)
Lemma applyLabels_unchanged desired : forall m,
  Forall (fun entry => Index m (fst entry) = Some (snd entry)) desired ->
  fold_left applyLabel desired (m, false) = (m, false).
Proof.
  induction desired as [|[k v] desired IH]; intros m Hall; [reflexivity|].
  inversion Hall as [|? ? Hkv Hrest]; subst. cbn [fst snd] in Hkv.
  cbn [fold_left]. unfold applyLabel at 2. rewrite Hkv, String.eqb_refl.
  now apply IH.
Qed.

Lemma applyLabels_raised desired : forall m,
  snd (fold_left applyLabel desired (m, true)) = true.
Proof.
  induction desired as [|[k v] desired IH]; intros m; [reflexivity|].
  cbn [fold_left]. unfold applyLabel at 2.
  destruct (Index m k) as [cv|]; [destruct (String.eqb cv v)|]; apply IH.
Qed.

Lemma applyLabels_changed desired : forall m,
  Exists (fun entry => Index m (fst entry) <> Some (snd entry)) desired ->
  snd (fold_left applyLabel desired (m, false)) = true.
Proof.
  induction desired as [|[k v] desired IH]; intros m Hex;
    [inversion Hex|].
  cbn [fold_left]. unfold applyLabel at 2.
  destruct (Index m k) as [cv|] eqn:E; [|apply applyLabels_raised].
  destruct (String.eqb cv v) eqn:Ev; [|apply applyLabels_raised].
  apply String.eqb_eq in Ev. subst cv.
  inversion Hex as [? ? Hhere|? ? Hlater]; subst;
    [cbn [fst snd] in Hhere; congruence | now apply IH].
Qed.

(** C8. [ApplyLabelsToResource] sends no update when every desired
    label already has its value in the labels it reads (in particular
    when the desired labels are the current ones); otherwise it sends
    exactly one update: the resource as read, with labels that give
    every desired key its desired value and every other key the value it
    had. *)
Theorem apply_merges_and_skips_unchanged (env : Env) (h : CrossplaneHandler)
    (resource : Unstructured) (desired : list (string * string)) :
  let client := dynamicClient env in
  let gvr := gvrOfResource resource in
  let outcome := ApplyLabelsToResource env h resource desired in
  ((forall current, Get_ client gvr (GetName resource) = Some current ->
      forall k v, In (k, v) desired -> Index (GetLabels current) k = Some v) ->
   updates outcome = [])
  /\ (forall current,
        mockMode h = false ->
        Get_ client gvr (GetName resource) = Some current ->
        List.NoDup (map fst desired) ->
        (exists k v, In (k, v) desired /\ Index (GetLabels current) k <> Some v) ->
        exists sent,
          updates outcome = [(gvr, sent)]
          /\ GetAPIVersion sent = GetAPIVersion current
          /\ GetKind sent = GetKind current
          /\ GetName sent = GetName current
          /\ Object sent = Object current
          /\ forall k, Index (GetLabels sent) k
                       = match Index desired k with
                         | Some v => Some v
                         | None => Index (GetLabels current) k
                         end).
Proof.
  intros client gvr outcome. subst client gvr outcome. split.
  - intros Hsame. unfold ApplyLabelsToResource.
    destruct (mockMode h); [reflexivity|].
    destruct (Get_ _ _ _) as [current|]; [|reflexivity].
    rewrite applyLabels_unchanged; [reflexivity|].
    apply List.Forall_forall. intros [k v] Hin. cbn [fst snd].
    now apply (Hsame current eq_refl).
  - intros current Hmock Hget Hnd (k & v & Hin & Hne).
    unfold ApplyLabelsToResource. rewrite Hmock, Hget.
    pose proof (applyLabels_changed desired (GetLabels current)) as Hchanged.
    pose proof (applyLabels_Index desired (GetLabels current) false) as Hindex.
    destruct (fold_left applyLabel desired (GetLabels current, false))
      as [merged changed]. cbn [fst snd] in *.
    rewrite Hchanged.
    2:{ apply List.Exists_exists. exists (k, v). split; [exact Hin | exact Hne]. }
    exists (SetLabels current merged). split; [reflexivity|].
    cbn [SetLabels GetAPIVersion GetKind GetName Object GetLabels].
    repeat (split; [reflexivity|]).
    intros k'. rewrite Hindex.
    rewrite <- (Index_Permutation desired (rev desired) k' Hnd (Permutation_rev desired)).
    reflexivity.
Qed.

Lemma apply_merges_and_skips_unchanged_witness :
  updates (ApplyLabelsToResource exampleEnv (handler exampleState) web1
             [("team", "frontend")]) = []
  /\ updates (ApplyLabelsToResource exampleEnv (handler exampleState) web1
                [("env", "prod"); ("team", "frontend")])
     = [(gvrOfResource web1,
         computeInstance "web-1" [("team", "frontend"); ("env", "prod")]
           [("networkInterfaces", VList [VMap [("networkIP", VString "10.0.3.4")]])])]
  /\ exists sent,
       updates (ApplyLabelsToResource exampleEnv (handler exampleState) web1
                  [("env", "prod"); ("team", "frontend")])
       = [(gvrOfResource web1, sent)]
       /\ GetAPIVersion sent = GetAPIVersion web1
       /\ GetKind sent = GetKind web1
       /\ GetName sent = GetName web1
       /\ Object sent = Object web1
       /\ forall k, Index (GetLabels sent) k
                    = match Index [("env", "prod"); ("team", "frontend")] k with
                      | Some v => Some v
                      | None => Index (GetLabels web1) k
                      end.
Proof.
  split; [|split; [reflexivity|]].
  - apply (proj1 (apply_merges_and_skips_unchanged exampleEnv (handler exampleState)
                    web1 [("team", "frontend")])).
    intros current Hget k v [[= <- <-]|[]].
    vm_compute in Hget. injection Hget as <-. reflexivity.
  - apply (proj2 (apply_merges_and_skips_unchanged exampleEnv (handler exampleState)
                    web1 [("env", "prod"); ("team", "frontend")]) web1).
    + reflexivity.
    + reflexivity.
    + repeat constructor; simpl; intuition discriminate.
    + exists "env", "prod". split; [now left | discriminate].
Defined.

End Applier.

(** * The worked examples of the specification *)

Section Examples.

(** Namespace [billing-prod], resource [billing-prod-db-1]: the name signal
    fires alone, with one reason and a confidence of at least 0.75. *)
Example name_containment_example :
  let resource := computeInstance "billing-prod-db-1" [] [] in
  fst (evaluateResourceMatchForNamespace resource "billing-prod")
  = ["Resource name contains namespace: billing-prod"]
  /\ (0.75 <=? snd (evaluateResourceMatchForNamespace resource "billing-prod"))%float
     = true.
Proof. split; vm_compute; reflexivity. Qed.

(** Pod address [10.0.3.4] is indexed for [Instance/web-1], which the
    metadata scan does not find: the final list contains [web-1] with
    confidence 0.9. *)
Example network_evidence_example :
  let metadata :=
    fst (FindCrossplaneResourcesForNamespaceWithConfidence
           exampleEnv exampleState "billing") in
  let result :=
    fst (FindCrossplaneResourcesForNamespaceWithNetworking
           exampleEnv exampleState "billing" ["10.0.3.4"]) in
  ~ In "web-1" (map (fun m => GetName (MatchResource m)) metadata)
  /\ In {| MatchResource := web1;
           ConfidenceScore := 0.9%float;
           MatchReasons := ["Network connection detected from pod IP 10.0.3.4"] |}
        result.
Proof.
  split.
  - vm_compute. intuition discriminate.
  - vm_compute. right. left. reflexivity.
Qed.

(** The workload matcher, not the namespace scorer, is the one that reads
    [app] inside [spec.forProvider.labels]. *)
Example workload_matcher_reads_nested_app :
  let resource :=
    {| GetAPIVersion := "storage.gcp.upbound.io/v1beta1";
       GetKind := "Bucket";
       GetName := "assets";
       GetLabels := [];
       Object := [("spec", VMap [("forProvider",
                     VMap [("labels", VMap [("app", VString "billing")])])])] |} in
  isResourceForWorkload resource "billing" = true
  /\ isResourceForNamespace resource "billing" = false.
Proof. split; reflexivity. Qed.

(** The first call of a fresh handler builds the network index. *)
Example first_call_builds_index :
  let st := snd (FindCrossplaneResourcesForNamespaceWithConfidence
                   exampleEnv exampleState "billing") in
  clockReads st = 2
  /\ lastNetworkMapBuild (handler st) = clock exampleEnv 1
  /\ size (resourceIPMap (handler st)) = 1.
Proof. repeat split; vm_compute; reflexivity. Qed.

End Examples.

(** * Further properties of the resolver *)

Section SortFacts.

Lemma bubbleMax_of_maximum (rest : list ResourceMatch) : forall p,
  Forall (notBelow p) rest -> bubbleMax p rest = (p, rest).
Proof.
  induction rest as [|y rest IH]; intros p Hall; [reflexivity|].
  inversion Hall as [|? ? Hy Hrest]; subst. cbn [bubbleMax].
  unfold notBelow in Hy. rewrite Hy, (IH p Hrest). reflexivity.
Qed.

Lemma exchangeSort_of_descending (n : nat) : forall l,
  descending l -> exchangeSort n l = l.
Proof.
  induction n as [|n IH]; intros [|p rest] Hl; try reflexivity.
  inversion Hl as [|? ? Hrest Hp]; subst. cbn [exchangeSort].
  rewrite (bubbleMax_of_maximum rest p Hp), (IH rest Hrest). reflexivity.
Qed.

(** X1. A list that is already in descending order of confidence comes
    back from [sortMatchesByConfidence] unchanged, ties included. *)
Theorem sort_leaves_descending_list_unchanged (matches : list ResourceMatch) :
  descending matches -> sortMatchesByConfidence matches = matches.
Proof.
  intros H. rewrite sortMatchesByConfidence_exchangeSort.
  now apply exchangeSort_of_descending.
Qed.

Lemma sort_leaves_descending_list_unchanged_witness :
  let matches := [matchOf "billing" ledger; matchOf "billing" billingA;
                  matchOf "billing" billingB] in
  sortMatchesByConfidence matches = matches.
Proof.
  apply sort_leaves_descending_list_unchanged.
  repeat constructor; vm_compute; reflexivity.
Defined.

(** X2. [sortMatchesByConfidence] only reorders: its result holds the
    same matches, each as often as the input, and has the same length. *)
Theorem sort_only_reorders (matches : list ResourceMatch) :
  Permutation matches (sortMatchesByConfidence matches)
  /\ length (sortMatchesByConfidence matches) = length matches.
Proof.
  split; [apply sort_Permutation|].
  symmetry. apply Permutation_length, sort_Permutation.
Qed.

End SortFacts.

Section ResolverFacts.

(** X3. The list [FindCrossplaneResourcesForNamespaceWithNetworking]
    returns is in descending order of confidence, whatever the network
    phase added. *)
Theorem networking_result_is_descending
    (env : Env) (st : State) (namespace : string) (podIPs : list string) :
  descending
    (fst (FindCrossplaneResourcesForNamespaceWithNetworking env st namespace podIPs)).
Proof.
  unfold FindCrossplaneResourcesForNamespaceWithNetworking.
  destruct (FindCrossplaneResourcesForNamespaceWithConfidence env st namespace)
    as [matches st1] eqn:Hfind.
  destruct ((length podIPs =? 0)%nat || mockMode (handler st1));
    [|apply sort_descending].
  cbn [fst]. replace matches
    with (fst (FindCrossplaneResourcesForNamespaceWithConfidence env st namespace))
    by (now rewrite Hfind).
  unfold FindCrossplaneResourcesForNamespaceWithConfidence.
  destruct (mockMode (handler st)); [constructor|].
  destruct (staleAt env st) as [stale st']. apply sort_descending.
Qed.

(** ** The index that [BuildNetworkMap] builds *)

Lemma indexed_appendIdentifier identifier resourceMap ip0 ip ident :
  indexed (appendIdentifier identifier resourceMap ip0) ip ident
  <-> indexed resourceMap ip ident \/ (ip = ip0 /\ ident = identifier).
Proof.
  unfold indexed, appendIdentifier. destruct (decide (ip0 = ip)) as [->|Hne].
  - rewrite lookup_insert_eq. split.
    + intros (ids & [= <-] & Hin). apply in_app_iff in Hin as [Hin|[<-|[]]]; [|auto].
      left. destruct (resourceMap !! ip) as [old|]; [|destruct Hin]. eauto.
    + intros [(ids & Hlook & Hin)|[_ ->]]; eexists; (split; [reflexivity|]);
        apply in_app_iff; [left; now rewrite Hlook | right; now left].
  - rewrite lookup_insert_ne by exact Hne. split; [auto|].
    intros [H|[-> _]]; [exact H | congruence].
Qed.

Lemma indexed_indexItem item : forall resourceMap ip ident,
  indexed (indexItem resourceMap item) ip ident
  <-> indexed resourceMap ip ident
      \/ (In ip (extractIPAddresses item) /\ ident = identifierOf item).
Proof.
  unfold indexItem. fold (identifierOf item).
  induction (extractIPAddresses item) as [|ip0 ips IH]; intros resourceMap ip ident;
    cbn [fold_left].
  - simpl. tauto.
  - rewrite IH, indexed_appendIdentifier. simpl. intuition (subst; auto).
Qed.

Lemma indexed_indexItems items : forall resourceMap ip ident,
  indexed (fold_left indexItem items resourceMap) ip ident
  <-> indexed resourceMap ip ident
      \/ exists item, In item items /\ In ip (extractIPAddresses item)
                      /\ ident = identifierOf item.
Proof.
  induction items as [|item items IH]; intros resourceMap ip ident; cbn [fold_left].
  - split; [auto|]. intros [H|(item & [] & _)]. exact H.
  - rewrite IH, indexed_indexItem. split.
    + intros [[H|[Hip ->]]|(item' & Hin & Hip & ->)]; [now left | |].
      * right. exists item. simpl. auto.
      * right. exists item'. simpl. auto.
    + intros [H|(item' & [<-|Hin] & Hip & ->)]; [now left; left | now left; right |].
      right. eauto.
Qed.

Lemma indexTypes_flat (client : Backend) (types : list GroupVersionResource) :
  forall resourceMap,
  fold_left (indexType client) types resourceMap
  = fold_left indexItem
      (flat_map (fun gvr => default [] (List_ client gvr)) types) resourceMap.
Proof.
  induction types as [|gvr types IH]; intros resourceMap; simpl; [reflexivity|].
  rewrite fold_left_app, <- IH. unfold indexType at 2.
  destruct (List_ client gvr); reflexivity.
Qed.

(** X4. Outside mock mode, [BuildNetworkMap] replaces the index by one
    that holds, under each address, exactly the identifiers of the listed
    resources from which [extractIPAddresses] extracts that address;
    nothing of the previous index survives, and the build time is the
    clock reading it took. *)
Theorem BuildNetworkMap_indexes_listed_addresses (env : Env) (st : State) :
  mockMode (handler st) = false ->
  let st' := BuildNetworkMap env st in
  (forall ip ident,
     indexed (resourceIPMap (handler st')) ip ident
     <-> exists item, In item (allItems (dynamicClient env))
                      /\ In ip (extractIPAddresses item)
                      /\ ident = identifierOf item)
  /\ lastNetworkMapBuild (handler st') = clock env (clockReads st)
  /\ clockReads st' = S (clockReads st).
Proof.
  intros Hmock. unfold BuildNetworkMap. rewrite Hmock.
  cbn [handler resourceIPMap lastNetworkMapBuild clockReads].
  split; [|split; reflexivity].
  intros ip ident. rewrite indexTypes_flat, indexed_indexItems.
  fold (allItems (dynamicClient env)). split; [|auto].
  intros [(ids & Hlook & _)|H]; [|exact H].
  rewrite lookup_empty in Hlook. discriminate.
Qed.

Lemma BuildNetworkMap_indexes_listed_addresses_witness :
  indexed (resourceIPMap (handler (BuildNetworkMap exampleEnv exampleState)))
          "10.0.3.4" (identifierOf web1).
Proof.
  apply (proj1 (BuildNetworkMap_indexes_listed_addresses exampleEnv exampleState
                  eq_refl)).
  exists web1. split; [|split; [|reflexivity]]; vm_compute; tauto.
Defined.

(** X5. A resource type that cannot be listed counts as a type without
    instances: two clusters whose listings agree wherever both succeed,
    a failed listing standing for the empty one, give the same matches
    and leave the handler in the same state. *)
Theorem failed_listing_is_empty_listing (env1 env2 : Env) (st : State)
    (namespace : string) :
  (forall gvr, default [] (List_ (dynamicClient env1) gvr)
               = default [] (List_ (dynamicClient env2) gvr)) ->
  (forall k, clock env1 k = clock env2 k) ->
  FindCrossplaneResourcesForNamespaceWithConfidence env1 st namespace
  = FindCrossplaneResourcesForNamespaceWithConfidence env2 st namespace.
Proof.
  intros Hlist Hclock.
  assert (Hitems : allItems (dynamicClient env1) = allItems (dynamicClient env2)).
  { unfold allItems. apply flat_map_ext. exact Hlist. }
  assert (Hbuild : forall s, BuildNetworkMap env1 s = BuildNetworkMap env2 s).
  { intros s. unfold BuildNetworkMap. destruct (mockMode (handler s)); [reflexivity|].
    rewrite !indexTypes_flat, Hclock.
    fold (allItems (dynamicClient env1)). fold (allItems (dynamicClient env2)).
    now rewrite Hitems. }
  unfold FindCrossplaneResourcesForNamespaceWithConfidence.
  destruct (mockMode (handler st)); [reflexivity|].
  unfold staleAt. rewrite Hclock, !metadataPass_allItems, Hitems.
  destruct (thirtyMinutes <? _)%Z; [rewrite Hbuild|]; reflexivity.
Qed.

Lemma failed_listing_is_empty_listing_witness :
  let quiet :=
    {| dynamicClient :=
         {| List_ := fun gvr => Some (default [] (List_ exampleBackend gvr));
            Get_ := Get_ exampleBackend;
            Update_ := Update_ exampleBackend |};
       clock := clock exampleEnv |} in
  FindCrossplaneResourcesForNamespaceWithConfidence exampleEnv exampleState "billing"
  = FindCrossplaneResourcesForNamespaceWithConfidence quiet exampleState "billing".
Proof.
  apply failed_listing_is_empty_listing; [|reflexivity].
  intros gvr. reflexivity.
Defined.

(** X6. Outside mock mode and with a clock that does not run backwards
    between two readings, the index that
    [FindCrossplaneResourcesForNamespaceWithConfidence] leaves behind was
    built at most thirty minutes before the time at which the call
    checked it. *)
Theorem resolve_leaves_a_fresh_index (env : Env) (st : State) (namespace : string) :
  mockMode (handler st) = false ->
  (clock env (clockReads st) <= clock env (S (clockReads st)))%Z ->
  let st' :=
    snd (FindCrossplaneResourcesForNamespaceWithConfidence env st namespace) in
  (clock env (clockReads st) - lastNetworkMapBuild (handler st') <= thirtyMinutes)%Z.
Proof.
  intros Hmock Hclock. unfold FindCrossplaneResourcesForNamespaceWithConfidence.
  rewrite Hmock. unfold staleAt.
  destruct (thirtyMinutes <? _)%Z eqn:Hstale; cbn [snd].
  - unfold BuildNetworkMap. cbn [handler clockReads]. rewrite Hmock.
    cbn [handler lastNetworkMapBuild]. unfold thirtyMinutes. lia.
  - cbn [handler]. apply Z.ltb_ge in Hstale. exact Hstale.
Qed.

Lemma resolve_leaves_a_fresh_index_witness :
  let st' :=
    snd (FindCrossplaneResourcesForNamespaceWithConfidence
           exampleEnv exampleState "billing") in
  (clock exampleEnv (clockReads exampleState) - lastNetworkMapBuild (handler st')
   <= thirtyMinutes)%Z.
Proof.
  apply resolve_leaves_a_fresh_index; [reflexivity | vm_compute; discriminate].
Defined.

End ResolverFacts.

(** * The workload finder and the boolean matchers *)

Section WorkloadFacts.

Variable workloadName : string.

Lemma workloadScanned_step finished acc item :
  workloadScanned workloadName finished acc ->
  workloadScanned workloadName (finished ++ [item])
    (scanWorkloadItem workloadName acc item).
Proof.
  destruct acc as [resources found].
  intros (Hall & Hnd & Hsub & Hfound & Hcomplete). cbn [fst snd] in *.
  unfold scanWorkloadItem. fold (itemKey item).
  destruct (bool_decide (itemKey item ∈ found)) eqn:Hseen.
  - apply bool_decide_eq_true in Hseen.
    repeat split; cbn [fst snd]; auto.
    + now apply sublist_inserts_r.
    + now apply Hfound.
    + now apply Hfound.
    + intros x Hin Hfor. apply in_app_iff in Hin as [Hin|[<-|[]]]; [auto|].
      now apply Hfound.
  - apply bool_decide_eq_false in Hseen.
    destruct (isResourceForWorkload item workloadName) eqn:Hfor.
    + repeat split; cbn [fst snd].
      * apply Forall_app. split; [exact Hall | now repeat constructor].
      * rewrite map_app. simpl.
        eapply Permutation_NoDup; [apply Permutation_cons_append|].
        constructor; [|exact Hnd]. intros Hin. now apply Hseen, Hfound.
      * now apply sublist_app.
      * rewrite elem_of_union, elem_of_singleton, map_app, in_app_iff, Hfound.
        simpl. intuition (subst; auto).
      * rewrite map_app, in_app_iff, <- Hfound. simpl.
        rewrite elem_of_union, elem_of_singleton, Hfound. intuition (subst; auto).
      * intros x Hin Hx. rewrite map_app, in_app_iff. simpl.
        apply in_app_iff in Hin as [Hin|[<-|[]]]; auto.
    + repeat split; cbn [fst snd]; auto.
      * now apply sublist_inserts_r.
      * now apply Hfound.
      * now apply Hfound.
      * intros x Hin Hx. apply in_app_iff in Hin as [Hin|[<-|[]]]; [auto|congruence].
Qed.

Lemma workloadScanned_fold todo : forall finished acc,
  workloadScanned workloadName finished acc ->
  workloadScanned workloadName (finished ++ todo)
    (fold_left (scanWorkloadItem workloadName) todo acc).
Proof.
  induction todo as [|x todo IH]; intros finished acc H; simpl.
  - now rewrite app_nil_r.
  - replace (finished ++ x :: todo) with ((finished ++ [x]) ++ todo)
      by (now rewrite <- app_assoc).
    apply IH, workloadScanned_step, H.
Qed.

Lemma workloadTypes_flat (client : Backend) (types : list GroupVersionResource) :
  forall acc,
  fold_left (fun acc gvr =>
               match List_ client gvr with
               | None => acc
               | Some items => fold_left (scanWorkloadItem workloadName) items acc
               end) types acc
  = fold_left (scanWorkloadItem workloadName)
      (flat_map (fun gvr => default [] (List_ client gvr)) types) acc.
Proof.
  induction types as [|gvr types IH]; intros acc; simpl; [reflexivity|].
  rewrite fold_left_app, <- IH. destruct (List_ client gvr); reflexivity.
Qed.

Lemma filter_all {A : Type} (l : list A) : List.filter (fun _ => true) l = l.
Proof. induction l as [|x l IH]; cbn; [reflexivity | now rewrite IH]. Qed.

Lemma filter_twice {A : Type} (p q : A -> bool) (l : list A) :
  List.filter p (List.filter q l) = List.filter (fun x => q x && p x) l.
Proof.
  induction l as [|x l IH]; cbn [List.filter]; [reflexivity|].
  destruct (q x); cbn [List.filter andb]; [|exact IH].
  destruct (p x); now rewrite IH.
Qed.

Lemma keyAmong_In resources r :
  keyAmong resources r = true <-> In (itemKey r) (map itemKey resources).
Proof.
  unfold keyAmong. rewrite existsb_exists, in_map_iff. split.
  - intros (r' & Hin & Heq). apply String.eqb_eq in Heq. now exists r'.
  - intros (r' & Heq & Hin). exists r'. split; [exact Hin|]. now apply String.eqb_eq.
Qed.

Lemma keyAmong_same_key resources r r' :
  itemKey r = itemKey r' -> keyAmong resources r = keyAmong resources r'.
Proof. intros Heq. unfold keyAmong. now rewrite Heq. Qed.

Lemma keyAmong_snoc resources item r :
  keyAmong (resources ++ [item]) r
  = keyAmong resources r || String.eqb (itemKey r) (itemKey item).
Proof. unfold keyAmong. rewrite existsb_app. cbn [existsb]. now rewrite orb_false_r. Qed.

(** The scan from any point on: the resources found so far, followed by
    the first resource of each further key among those that match. *)
Lemma scan_firstOfEachKey items : forall resources found,
  (forall k, k ∈ found <-> In k (map itemKey resources)) ->
  fst (fold_left (scanWorkloadItem workloadName) items (resources, found))
  = resources
    ++ List.filter (fun r => negb (keyAmong resources r))
         (firstOfEachKey
            (List.filter (fun r => isResourceForWorkload r workloadName) items)).
Proof.
  induction items as [|item rest IH]; intros resources found Hfound.
  - cbn. now rewrite app_nil_r.
  - cbn [fold_left List.filter]. unfold scanWorkloadItem at 2. fold (itemKey item).
    destruct (bool_decide (itemKey item ∈ found)) eqn:Hseen.
    + apply bool_decide_eq_true in Hseen. apply Hfound, keyAmong_In in Hseen.
      rewrite (IH resources found Hfound). f_equal.
      destruct (isResourceForWorkload item workloadName); [|reflexivity].
      cbn [firstOfEachKey List.filter]. rewrite Hseen. cbn [negb].
      rewrite filter_twice. apply filter_ext. intros r.
      destruct (String.eqb_spec (itemKey r) (itemKey item)) as [Heq|]; [|reflexivity].
      now rewrite (keyAmong_same_key resources r item Heq), Hseen.
    + apply bool_decide_eq_false in Hseen.
      assert (Hnew : keyAmong resources item = false).
      { destruct (keyAmong resources item) eqn:E; [|reflexivity].
        apply keyAmong_In, Hfound in E. contradiction. }
      destruct (isResourceForWorkload item workloadName).
      * rewrite (IH (resources ++ [item]) ({[itemKey item]} ∪ found)).
        2:{ intros k. rewrite elem_of_union, elem_of_singleton, map_app, in_app_iff,
              Hfound. cbn [map In]. intuition (subst; auto). }
        rewrite <- app_assoc. f_equal.
        cbn [firstOfEachKey List.filter app]. rewrite Hnew. cbn [negb]. f_equal.
        rewrite filter_twice. apply filter_ext. intros r.
        rewrite keyAmong_snoc, negb_orb. apply andb_comm.
      * apply (IH resources found Hfound).
Qed.

(** X7. Outside mock mode, [FindCrossplaneResourcesForWorkload] returns
    the first resource of each [kind/name] key among the listed
    resources that satisfy [isResourceForWorkload], in their discovery
    order: a resource listed later under the key of a returned one is
    left out.  So each returned resource satisfies
    [isResourceForWorkload], no two share a key, and every listed
    resource that satisfies [isResourceForWorkload] has its key among
    them. *)
Theorem workload_finder_keeps_first_of_each_key (env : Env) (h : CrossplaneHandler) :
  mockMode h = false ->
  let result := FindCrossplaneResourcesForWorkload env h workloadName in
  let listed := allItems (dynamicClient env) in
  result
  = firstOfEachKey
      (List.filter (fun r => isResourceForWorkload r workloadName) listed)
  /\ Forall (fun r => isResourceForWorkload r workloadName = true) result
  /\ List.NoDup (map itemKey result)
  /\ sublist result listed
  /\ forall item, In item listed ->
       isResourceForWorkload item workloadName = true ->
       In (itemKey item) (map itemKey result).
Proof.
  intros Hmock result listed. subst result listed.
  unfold FindCrossplaneResourcesForWorkload. rewrite Hmock.
  rewrite workloadTypes_flat. fold (allItems (dynamicClient env)).
  split.
  { rewrite (scan_firstOfEachKey (allItems (dynamicClient env)) [] ∅).
    - cbn [app keyAmong existsb negb]. apply filter_all.
    - intros k. cbn [map In]. split; [|intros []].
      intros H. now apply not_elem_of_empty in H. }
  destruct (workloadScanned_fold (allItems (dynamicClient env)) [] ([], ∅))
    as (Hall & Hnd & Hsub & _ & Hcomplete).
  { repeat split; cbn [fst snd]; try constructor.
    - intros H. now apply not_elem_of_empty in H.
    - intros [].
    - intros item []. }
  auto.
Qed.

End WorkloadFacts.

Section WorkloadWitness.

Lemma workload_finder_keeps_first_of_each_key_witness :
  let result :=
    FindCrossplaneResourcesForWorkload twoGroupsEnv (handler exampleState) "shop" in
  let listed := allItems (dynamicClient twoGroupsEnv) in
  listed = [cacheCompute; cacheRedis]
  /\ itemKey cacheCompute = itemKey cacheRedis
  /\ isResourceForWorkload cacheRedis "shop" = true
  /\ result = [cacheCompute]
  /\ result
     = firstOfEachKey (List.filter (fun r => isResourceForWorkload r "shop") listed)
  /\ Forall (fun r => isResourceForWorkload r "shop" = true) result
  /\ List.NoDup (map itemKey result)
  /\ sublist result listed
  /\ forall item, In item listed ->
       isResourceForWorkload item "shop" = true ->
       In (itemKey item) (map itemKey result).
Proof.
  do 4 (split; [reflexivity|]).
  apply (workload_finder_keeps_first_of_each_key "shop" twoGroupsEnv
           (handler exampleState)).
  reflexivity.
Defined.

(** ** The boolean namespace matcher and the scorer *)

Lemma labelIs_Index labels key target :
  labelIs labels key target = true -> Index labels key = Some target.
Proof.
  unfold labelIs. destruct (Index labels key) as [v|]; [|discriminate].
  intros H. apply String.eqb_eq in H. now subst.
Qed.

Lemma specLabelIs_nested resource key target :
  specLabelIs resource key target = true ->
  exists labels, nestedLabelsOf resource = Some labels
                 /\ asString (Index labels key) = Some target.
Proof.
  unfold specLabelIs, nestedLabelsOf, forProviderOf.
  destruct (asMap (Index (Object resource) "spec")) as [spec|]; [|discriminate].
  destruct (asMap (Index spec "forProvider")) as [fp|]; [|discriminate].
  destruct (asMap (Index fp "labels")) as [labels|]; [|discriminate].
  destruct (asString (Index labels key)) as [v|] eqn:Hv; [|discriminate].
  intros H. apply String.eqb_eq in H. subst v.
  exists labels. split; [reflexivity | exact Hv].
Qed.

Lemma labelSignals_fires_exact resource namespace key st :
  In key ["kubernetes-namespace"; "namespace"; "environment"] ->
  Index (GetLabels resource) key = Some namespace ->
  scores (labelSignals resource namespace st) <> [].
Proof.
  intros Hkey Hlabel. unfold labelSignals.
  eapply grows_nonempty; [apply grows_fold; intros; apply grows_otherLabel|].
  simpl in Hkey. destruct Hkey as [<-|[<-|[<-|[]]]].
  - eapply grows_nonempty;
      [eapply grows_trans; [apply grows_exactLabel | apply grows_exactLabel]|].
    rewrite (exactLabel_fires _ _ _ _ _ _ Hlabel). apply fire_nonempty.
  - eapply grows_nonempty; [apply grows_exactLabel|].
    rewrite (exactLabel_fires _ _ _ _ _ _ Hlabel). apply fire_nonempty.
  - rewrite (exactLabel_fires _ _ _ _ _ _ Hlabel). apply fire_nonempty.
Qed.

Lemma specSignals_fires_exact resource namespace key labels st :
  In key ["kubernetes-namespace"; "namespace"; "environment"] ->
  nestedLabelsOf resource = Some labels ->
  asString (Index labels key) = Some namespace ->
  scores (specSignals resource namespace st) <> [].
Proof.
  intros Hkey Hnested Hlabel. rewrite specSignals_forProviderOf.
  unfold nestedLabelsOf in Hnested.
  destruct (forProviderOf resource) as [fp|]; [|discriminate].
  rewrite Hnested.
  eapply grows_nonempty; [apply grows_fold; intros; apply grows_forProviderField|].
  simpl in Hkey. destruct Hkey as [<-|[<-|[<-|[]]]].
  - eapply grows_nonempty;
      [eapply grows_trans; [apply grows_exactSpecLabel | apply grows_exactSpecLabel]|].
    rewrite (exactSpecLabel_fires _ _ _ _ _ _ Hlabel). apply fire_nonempty.
  - eapply grows_nonempty; [apply grows_exactSpecLabel|].
    rewrite (exactSpecLabel_fires _ _ _ _ _ _ Hlabel). apply fire_nonempty.
  - rewrite (exactSpecLabel_fires _ _ _ _ _ _ Hlabel). apply fire_nonempty.
Qed.

(** X8. Whatever [isResourceForNamespace] accepts, the scorer gives at
    least one signal: the boolean matcher never accepts a resource that
    the scorer leaves at confidence 0 without a reason. *)
Theorem namespace_matcher_implies_signal (resource : Unstructured)
    (namespace : string) :
  isResourceForNamespace resource namespace = true ->
  fst (evaluateResourceMatchForNamespace resource namespace) <> [].
Proof.
  intros Hmatch.
  assert (Hscores : scores (collectSignals resource namespace) <> []).
  { unfold isResourceForNamespace in Hmatch.
    repeat (apply orb_prop in Hmatch as [Hmatch|Hmatch]); unfold collectSignals.
    - eapply grows_nonempty; [apply grows_specSignals|].
      apply (labelSignals_fires_exact _ _ "kubernetes-namespace");
        [simpl; auto | now apply labelIs_Index].
    - eapply grows_nonempty; [apply grows_specSignals|].
      apply (labelSignals_fires_exact _ _ "namespace");
        [simpl; auto | now apply labelIs_Index].
    - eapply grows_nonempty;
        [eapply grows_trans; [apply grows_labelSignals | apply grows_specSignals]|].
      unfold nameSignal. rewrite Hmatch. apply fire_nonempty.
    - apply specLabelIs_nested in Hmatch as (labels & Hnested & Hlabel).
      apply (specSignals_fires_exact _ _ "kubernetes-namespace" labels);
        [simpl; auto | exact Hnested | exact Hlabel].
    - apply specLabelIs_nested in Hmatch as (labels & Hnested & Hlabel).
      apply (specSignals_fires_exact _ _ "namespace" labels);
        [simpl; auto | exact Hnested | exact Hlabel]. }
  destruct (wellFormed_collectSignals resource namespace) as [Hlen _].
  unfold evaluateResourceMatchForNamespace.
  destruct (scores (collectSignals resource namespace)) as [|w ws] eqn:Hs;
    [congruence|].
  cbn [fst]. intros Hnil. rewrite Hnil in Hlen. discriminate.
Qed.

Lemma namespace_matcher_implies_signal_witness :
  fst (evaluateResourceMatchForNamespace ledger "billing") <> [].
Proof. apply namespace_matcher_implies_signal. reflexivity. Defined.

(** X9. For the empty target name the scorer's name test succeeds on
    every resource: the first reason is always the name reason, with
    weight 0.8 as first score. *)
Theorem empty_namespace_matches_every_name (resource : Unstructured) :
  exists reasons ws,
    matchReasons (collectSignals resource "")
    = "Resource name contains namespace: " :: reasons
    /\ scores (collectSignals resource "") = 0.8%float :: ws
    /\ fst (evaluateResourceMatchForNamespace resource "")
       = "Resource name contains namespace: " :: reasons.
Proof.
  assert (Hname : nameSignal resource "" noSignals
                  = fire "Resource name contains namespace: " 0.8%float noSignals).
  { unfold nameSignal. cbn [strings.ToLower].
    destruct (strings.ToLower (GetName resource)); reflexivity. }
  assert (G : grows (nameSignal resource "" noSignals) (collectSignals resource "")).
  { unfold collectSignals.
    eapply grows_trans; [apply grows_labelSignals | apply grows_specSignals]. }
  rewrite Hname in G. destruct G as (reasons & ws & Hr & Hw).
  cbn in Hr, Hw. exists reasons, ws. split; [exact Hr|]. split; [exact Hw|].
  unfold evaluateResourceMatchForNamespace. rewrite Hw. exact Hr.
Qed.

End WorkloadWitness.

(** * Further properties of the label applier *)

Section ApplierFacts.

Lemma applyLabels_sets_desired (desired current : list (string * string))
    (changed : bool) k v :
  List.NoDup (map fst desired) -> In (k, v) desired ->
  Index (fst (fold_left applyLabel desired (current, changed))) k = Some v.
Proof.
  intros Hnd Hin. rewrite applyLabels_Index.
  rewrite <- (Index_Permutation desired (rev desired) k Hnd (Permutation_rev desired)).
  now rewrite (In_Index desired k v Hnd Hin).
Qed.

Lemma labels_match_or_not (desired current : list (string * string)) :
  Forall (fun entry => Index current (fst entry) = Some (snd entry)) desired
  \/ Exists (fun entry => Index current (fst entry) <> Some (snd entry)) desired.
Proof.
  induction desired as [|[k v] desired IH]; [left; constructor|].
  destruct (decide (Index current k = Some v)) as [Hkv|Hkv].
  - destruct IH as [IH|IH]; [left | right]; now constructor.
  - right. now constructor.
Qed.

(** X10. Applying is idempotent: once the API server returns what the
    first call wrote (or the resource as it was, when the first call
    wrote nothing), a second call with the same labels sends no update. *)
Theorem apply_again_sends_nothing (env env' : Env) (h : CrossplaneHandler)
    (resource current : Unstructured) (desired : list (string * string)) :
  mockMode h = false ->
  Get_ (dynamicClient env) (gvrOfResource resource) (GetName resource)
  = Some current ->
  List.NoDup (map fst desired) ->
  Get_ (dynamicClient env') (gvrOfResource resource) (GetName resource)
  = Some match updates (ApplyLabelsToResource env h resource desired) with
         | (_, written) :: _ => written
         | [] => current
         end ->
  updates (ApplyLabelsToResource env' h resource desired) = [].
Proof.
  intros Hmock Hget Hnd Hget'.
  unfold ApplyLabelsToResource in Hget'. rewrite Hmock, Hget in Hget'.
  unfold ApplyLabelsToResource at 1. rewrite Hmock, Hget'.
  pose proof (fun k v => applyLabels_sets_desired desired (GetLabels current)
                           false k v Hnd) as Hset.
  pose proof (applyLabels_changed desired (GetLabels current)) as Hchanged.
  destruct (fold_left applyLabel desired (GetLabels current, false))
    as [merged changed] eqn:Hfold. cbn [fst snd] in *.
  destruct changed; cbn [negb updates] in *.
  - rewrite applyLabels_unchanged; [reflexivity|].
    apply List.Forall_forall. intros [k v] Hin. cbn [fst snd SetLabels GetLabels].
    now apply Hset.
  - rewrite applyLabels_unchanged; [reflexivity|].
    destruct (labels_match_or_not desired (GetLabels current)) as [H|H]; [exact H|].
    specialize (Hchanged H). discriminate.
Qed.

Lemma apply_again_sends_nothing_witness :
  let desired := [("env", "prod"); ("team", "frontend")] in
  let stored :=
    {| dynamicClient :=
         {| List_ := List_ exampleBackend;
            Get_ := fun _ _ =>
              Some (SetLabels web1 [("team", "frontend"); ("env", "prod")]);
            Update_ := Update_ exampleBackend |};
       clock := clock exampleEnv |} in
  updates (ApplyLabelsToResource stored (handler exampleState) web1 desired) = [].
Proof.
  apply (apply_again_sends_nothing exampleEnv _ _ web1 web1);
    [reflexivity | reflexivity | | reflexivity].
  repeat constructor; simpl; intuition discriminate.
Defined.

(** X11. A call of [ApplyLabelsToResource] sends at most one update.
    It answers [FailedToGet] exactly when, outside mock mode, the
    resource cannot be read, and then sends nothing; it answers
    [FailedToUpdate] exactly when the one update it sent was refused. *)
Theorem apply_errors (env : Env) (h : CrossplaneHandler)
    (resource : Unstructured) (desired : list (string * string)) :
  let client := dynamicClient env in
  let outcome := ApplyLabelsToResource env h resource desired in
  length (updates outcome) <= 1
  /\ (applyError outcome = Some FailedToGet
      <-> mockMode h = false
          /\ Get_ client (gvrOfResource resource) (GetName resource) = None)
  /\ (applyError outcome = Some FailedToGet -> updates outcome = [])
  /\ (applyError outcome = Some FailedToUpdate
      <-> exists gvr written,
            updates outcome = [(gvr, written)]
            /\ Update_ client gvr written = false).
Proof.
  intros client outcome. subst client outcome. unfold ApplyLabelsToResource.
  destruct (mockMode h).
  { cbn [updates applyError length]. split; [lia|].
    split; [split; [discriminate | intros [H _]; discriminate H]|].
    split; [discriminate|].
    split; [discriminate | intros (g & w & Hu & _); discriminate Hu]. }
  destruct (Get_ _ _ _) as [current|].
  2:{ cbn [updates applyError length]. split; [lia|].
      split; [split; [auto | reflexivity]|].
      split; [reflexivity|].
      split; [discriminate | intros (g & w & Hu & _); discriminate Hu]. }
  destruct (fold_left applyLabel desired (GetLabels current, false))
    as [merged changed].
  destruct changed; cbn [negb updates applyError length].
  - split; [lia|].
    split; [split; [destruct (Update_ _ _ _); discriminate
                   | intros [_ H]; discriminate H]|].
    split; [destruct (Update_ _ _ _); discriminate|].
    destruct (Update_ _ _ _) eqn:Hupd.
    + split; [discriminate|]. intros (g & w & [= <- <-] & Hfalse). congruence.
    + split; [|reflexivity]. intros _. eexists _, _.
      split; [reflexivity | exact Hupd].
  - split; [lia|].
    split; [split; [discriminate | intros [_ H]; discriminate H]|].
    split; [discriminate|].
    split; [discriminate | intros (g & w & Hu & _); discriminate Hu].
Qed.

End ApplierFacts.

(** * The syntax of extracted addresses *)

Section AddressFacts.

Lemma append_cons (c : ascii) (s t : string) :
  String c s +:+ t = String c (s +:+ t).
Proof. reflexivity. Qed.

Lemma append_nil_l (t : string) : "" +:+ t = t.
Proof. reflexivity. Qed.

Lemma append_nil_r (s : string) : s +:+ "" = s.
Proof.
  induction s as [|c s IH]; [reflexivity|]. now rewrite append_cons, IH.
Qed.

Lemma append_assoc (s t u : string) : (s +:+ t) +:+ u = s +:+ (t +:+ u).
Proof.
  induction s as [|c s IH]; [reflexivity|]. now rewrite !append_cons, IH.
Qed.

Lemma rev_app_append (s : string) :
  forall t, String.rev_app s t = String.rev_app s "" +:+ t.
Proof.
  induction s as [|c s IH]; intros t; cbn [String.rev_app]; [reflexivity|].
  rewrite (IH (String c t)), (IH (String c "")), append_assoc. reflexivity.
Qed.

Lemma rev_cons (c : ascii) (s : string) :
  String.rev (String c s) = String.rev s +:+ String c "".
Proof. unfold String.rev. cbn [String.rev_app]. apply rev_app_append. Qed.

Lemma rev_append (s t : string) :
  String.rev (s +:+ t) = String.rev t +:+ String.rev s.
Proof.
  induction s as [|c s IH].
  - rewrite append_nil_l. change (String.rev "") with "". now rewrite append_nil_r.
  - now rewrite append_cons, !rev_cons, IH, append_assoc.
Qed.

Lemma rev_rev (s : string) : String.rev (String.rev s) = s.
Proof.
  induction s as [|c s IH]; [reflexivity|].
  now rewrite rev_cons, rev_append, IH.
Qed.

Lemma allBytes_append test s t :
  allBytes test (s +:+ t) = allBytes test s && allBytes test t.
Proof.
  induction s as [|c s IH]; [reflexivity|].
  rewrite append_cons. cbn [allBytes]. now rewrite IH, andb_assoc.
Qed.

Lemma allBytes_rev test s : allBytes test (String.rev s) = allBytes test s.
Proof.
  induction s as [|c s IH]; [reflexivity|].
  rewrite rev_cons, allBytes_append, IH. cbn [allBytes].
  rewrite andb_true_r. apply andb_comm.
Qed.

Lemma allBytes_weaken (test test' : ascii -> bool) s :
  (forall c, test c = true -> test' c = true) ->
  allBytes test s = true -> allBytes test' s = true.
Proof.
  intros Himp. induction s as [|c s IH]; simpl; [reflexivity|].
  intros H. apply andb_prop in H as [Hc Hs]. now rewrite (Himp c Hc), IH.
Qed.

Lemma allDigits_allBytes s : allDigits s = allBytes isDigit s.
Proof. induction s as [|c s IH]; simpl; [reflexivity | now rewrite IH]. Qed.

(** ** Splitting and joining *)

Lemma splitByte_nonempty sep s : forall cur, strings.splitByte sep s cur <> [].
Proof.
  induction s as [|c s IH]; intros cur; simpl; [discriminate|].
  destruct (Ascii.eqb c sep); [discriminate | apply IH].
Qed.

Lemma joinWith_splitByte sep s : forall cur,
  joinWith sep (strings.splitByte sep s cur) = String.rev cur +:+ s.
Proof.
  induction s as [|c s IH]; intros cur; cbn [strings.splitByte].
  - cbn [joinWith]. now rewrite append_nil_r.
  - destruct (Ascii.eqb_spec c sep) as [->|Hne].
    + pose proof (splitByte_nonempty sep s EmptyString) as Hrest.
      specialize (IH EmptyString).
      destruct (strings.splitByte sep s EmptyString) as [|p rest]; [congruence|].
      cbn [joinWith] in *. rewrite IH. reflexivity.
    + rewrite IH, rev_cons, append_assoc. reflexivity.
Qed.

Lemma splitByte_without_sep sep a : forall rest cur,
  allBytes (fun c => negb (Ascii.eqb c sep)) a = true ->
  strings.splitByte sep (a +:+ rest) cur
  = strings.splitByte sep rest (String.rev a +:+ cur).
Proof.
  induction a as [|c a IH]; intros rest cur H; [reflexivity|].
  cbn [allBytes] in H. apply andb_prop in H as [Hc Ha].
  apply negb_true_iff in Hc.
  rewrite append_cons. cbn [strings.splitByte]. rewrite Hc.
  rewrite (IH rest (String c cur) Ha), rev_cons, append_assoc. reflexivity.
Qed.

Lemma Split_without_sep sep a :
  allBytes (fun c => negb (Ascii.eqb c sep)) a = true ->
  strings.Split a sep = [a].
Proof.
  intros H. unfold strings.Split.
  rewrite <- (append_nil_r a) at 1.
  rewrite (splitByte_without_sep sep a "" "" H). cbn [strings.splitByte].
  now rewrite append_nil_r, rev_rev.
Qed.






Lemma looksLikeIP_dotted (s : string) :
  looksLikeIP s = true ->
  exists a b c d,
    s = dottedQuad a b c d
    /\ octetOk a = true /\ octetOk b = true
    /\ octetOk c = true /\ octetOk d = true.
Proof.
  unfold looksLikeIP. intros H.
  destruct (strings.Count s "." =? 3)%nat; [|discriminate]. cbn [negb] in H.
  pose proof (joinWith_splitByte "." s EmptyString) as Hjoin.
  fold (strings.Split s ".") in Hjoin.
  cbn [String.rev] in Hjoin. rewrite append_nil_l in Hjoin.
  destruct (strings.Split s ".") as [|a [|b [|c [|d [|e parts]]]]];
    try discriminate.
  cbn [length Nat.eqb negb forallb] in H.
  repeat (apply andb_prop in H as [? H]).
  exists a, b, c, d. repeat split; try assumption.
  rewrite <- Hjoin. reflexivity.
Qed.




(** The groups are not compared with 255. *)
Example out_of_range_groups_pass : looksLikeIP "999.999.999.999" = true.
Proof. reflexivity. Qed.

(** ** Addresses inside connection strings *)

Lemma octet_addressBytes a : octetOk a = true -> allBytes addressByte a = true.
Proof.
  intros H. unfold octetOk in H. apply andb_prop in H as [_ H].
  rewrite allDigits_allBytes in H.
  eapply allBytes_weaken; [|exact H].
  intros c Hc. unfold addressByte. now rewrite Hc.
Qed.

Lemma looksLikeIP_addressBytes s :
  looksLikeIP s = true -> allBytes addressByte s = true.
Proof.
  intros H. apply looksLikeIP_dotted in H as (a & b & c & d & -> & Ha & Hb & Hc & Hd).
  unfold dottedQuad. rewrite !allBytes_append.
  rewrite (octet_addressBytes a Ha), (octet_addressBytes b Hb),
          (octet_addressBytes c Hc), (octet_addressBytes d Hd).
  reflexivity.
Qed.

Lemma addressByte_cases c :
  addressByte c = true -> isDigit c = true \/ c = "."%char.
Proof.
  unfold addressByte. intros H. apply orb_prop in H as [H|H]; [now left|].
  right. now apply Ascii.eqb_eq.
Qed.

Lemma address_without (sep : ascii) s :
  addressByte sep = false -> allBytes addressByte s = true ->
  allBytes (fun c => negb (Ascii.eqb c sep)) s = true.
Proof.
  intros Hsep. apply allBytes_weaken. intros c Hc. apply negb_true_iff.
  destruct (Ascii.eqb_spec c sep) as [->|]; [congruence | reflexivity].
Qed.

Lemma addressByte_not_space c : addressByte c = true -> strings.isSpace c = false.
Proof.
  intros H. apply addressByte_cases in H as [H| ->]; [|reflexivity].
  unfold isDigit in H. unfold strings.isSpace.
  apply andb_prop in H as [H1 H2].
  apply Nat.leb_le in H1. apply Nat.leb_le in H2.
  apply orb_false_iff. split.
  - apply andb_false_iff. right. apply Nat.leb_gt. lia.
  - apply Nat.eqb_neq. lia.
Qed.

Lemma TrimLeft_without_space s :
  allBytes (fun c => negb (strings.isSpace c)) s = true -> strings.TrimLeft s = s.
Proof.
  destruct s as [|c s]; [reflexivity|]. cbn [allBytes strings.TrimLeft].
  intros H. apply andb_prop in H as [H _]. apply negb_true_iff in H.
  now rewrite H.
Qed.

Lemma TrimSpace_without_space s :
  allBytes (fun c => negb (strings.isSpace c)) s = true -> strings.TrimSpace s = s.
Proof.
  intros H. unfold strings.TrimSpace.
  rewrite (TrimLeft_without_space s H).
  rewrite TrimLeft_without_space by now rewrite allBytes_rev.
  apply rev_rev.
Qed.

Lemma TrimSpace_address s : looksLikeIP s = true -> strings.TrimSpace s = s.
Proof.
  intros H. apply TrimSpace_without_space.
  eapply allBytes_weaken; [|exact (looksLikeIP_addressBytes s H)].
  intros c Hc. apply negb_true_iff. now apply addressByte_not_space.
Qed.

Lemma ipsOfParts_address (sep : ascii) s :
  addressByte sep = false -> looksLikeIP s = true ->
  ipsOfParts (strings.Split s sep) = [s].
Proof.
  intros Hsep H.
  rewrite (Split_without_sep sep s
             (address_without sep s Hsep (looksLikeIP_addressBytes s H))).
  unfold ipsOfParts. cbn [map List.filter].
  now rewrite (TrimSpace_address s H), H.
Qed.

(** X13. A connection string that is itself an address is found once
    for each of the four delimiters [:], [/], [@] and [,]: the result
    lists it four times. *)
Theorem bare_address_is_extracted_four_times (s : string) :
  looksLikeIP s = true ->
  extractIPsFromConnectionString s = [s; s; s; s].
Proof.
  intros H. unfold extractIPsFromConnectionString. cbn [flat_map].
  rewrite !(ipsOfParts_address _ s) by (reflexivity || exact H).
  reflexivity.
Qed.

Lemma bare_address_is_extracted_four_times_witness :
  looksLikeIP "10.0.0.5" = true
  /\ extractIPsFromConnectionString "10.0.0.5"
     = ["10.0.0.5"; "10.0.0.5"; "10.0.0.5"; "10.0.0.5"].
Proof.
  split; [reflexivity|].
  apply (bare_address_is_extracted_four_times "10.0.0.5"). reflexivity.
Defined.

(** ** Which extracted addresses are checked *)

Lemma addresses_filter l : addresses (List.filter looksLikeIP l).
Proof.
  apply List.Forall_forall. intros ip Hin.
  now apply List.filter_In in Hin as [_ H].
Qed.

Lemma addresses_flat_map {A : Type} (f : A -> list string) l :
  (forall x, addresses (f x)) -> addresses (flat_map f l).
Proof.
  intros Hf. induction l as [|x l IH]; cbn [flat_map]; [constructor|].
  apply List.Forall_app. split; [apply Hf | exact IH].
Qed.

Lemma addresses_if s : addresses (if looksLikeIP s then [s] else []).
Proof.
  destruct (looksLikeIP s) eqn:H; [|constructor].
  constructor; [exact H | constructor].
Qed.

Lemma addresses_extractIPsFromConnectionString connStr :
  addresses (extractIPsFromConnectionString connStr).
Proof.
  unfold extractIPsFromConnectionString. apply addresses_flat_map.
  intros delimiter. apply addresses_filter.
Qed.

Lemma addresses_checkIPFields obj : addresses (checkIPFields obj).
Proof.
  unfold checkIPFields. apply addresses_flat_map. intros [key val].
  cbn [snd]. destruct val as [ipStr|subObj| |]; try constructor.
  - apply addresses_if.
  - apply addresses_flat_map. intros [subKey subVal]. cbn [snd].
    destruct subVal; try constructor. apply addresses_if.
Qed.

Lemma addresses_statusIPs resource : addresses (statusIPs resource).
Proof.
  unfold statusIPs.
  destruct (asMap (Index (Object resource) "status")) as [status|]; [|constructor].
  destruct (asMap (Index status "atProvider")) as [atProvider|]; [|constructor].
  apply List.Forall_app. split; [apply addresses_filter|].
  destruct (asList (Index atProvider "addresses")) as [l|]; [|constructor].
  apply addresses_flat_map. intros addr. unfold statusAddressIPs.
  destruct addr; try constructor; [apply addresses_if | apply addresses_filter].
Qed.

(** X14. Every address that [extractIPAddresses] returns for a resource
    whose kind is not [Instance] passes [looksLikeIP]. *)
Theorem only_instances_yield_unchecked_addresses (resource : Unstructured) :
  GetKind resource <> "Instance" ->
  List.Forall (fun ip => looksLikeIP ip = true) (extractIPAddresses resource).
Proof.
  change (GetKind resource <> "Instance" -> addresses (extractIPAddresses resource)).
  intros Hkind. unfold extractIPAddresses.
  apply String.eqb_neq in Hkind. rewrite Hkind. cbn [andb].
  destruct (_ && _).
  - destruct (match asMap (Index (Object resource) "spec") with
              | Some spec => asMap (Index spec "forProvider")
              | None => None
              end) as [fp|]; [|constructor].
    apply List.Forall_app. split; [apply addresses_checkIPFields|].
    unfold connectionStringIPs. apply addresses_flat_map.
    apply addresses_extractIPsFromConnectionString.
  - apply addresses_statusIPs.
Qed.

Lemma only_instances_yield_unchecked_addresses_witness :
  GetKind sqlPrimary <> "Instance"
  /\ extractIPAddresses sqlPrimary
     = ["10.0.0.5"; "10.0.0.5"; "10.0.0.5"; "10.0.0.5"; "10.0.0.5"]
  /\ List.Forall (fun ip => looksLikeIP ip = true) (extractIPAddresses sqlPrimary).
Proof.
  split; [discriminate|]. split; [reflexivity|].
  apply (only_instances_yield_unchecked_addresses sqlPrimary). discriminate.
Defined.

(** The fields of a compute instance are taken as they are. *)
Example compute_fields_are_not_checked :
  extractIPAddresses (computeInstance "web-2" [] [("ipAddress", VString "pending")])
  = ["pending"].
Proof. reflexivity. Qed.

End AddressFacts.

(** * The controllers *)

(** ** Status conditions *)

Section ConditionFacts.

Variables conditionType status reason message : string.

Lemma conditionChanged_false (c : Condition) :
  conditionChanged c status reason message = false
  <-> Status c = status /\ Reason c = reason /\ Message c = message.
Proof.
  unfold conditionChanged. rewrite !orb_false_iff, !negb_false_iff, !String.eqb_eq.
  tauto.
Qed.

Lemma conditionChanged_newCondition now :
  conditionChanged (newCondition conditionType status reason message now)
    status reason message = false.
Proof. apply conditionChanged_false. repeat split. Qed.

(** The first condition of the type after the call. *)
Lemma updateCondition_find (conditions : list Condition) (now : Z) :
  exists i,
    list_find (fun c => Type_ c = conditionType)
      (updateCondition conditions conditionType status reason message now)
    = Some (i, match list_find (fun c => Type_ c = conditionType) conditions with
               | Some (_, old) =>
                   if conditionChanged old status reason message
                   then newCondition conditionType status reason message now
                   else old
               | None => newCondition conditionType status reason message now
               end).
Proof.
  unfold updateCondition.
  fold (newCondition conditionType status reason message now).
  destruct (list_find _ conditions) as [[i old]|] eqn:E.
  - destruct (conditionChanged old status reason message); [|now exists i].
    exists i. apply list_find_Some in E as (Hi & _ & Hleast).
    apply list_find_insert_Some. right; left.
    repeat split; [now apply lookup_lt_Some in Hi | exact Hleast].
  - exists (length conditions). apply list_find_app_Some. right.
    split; [lia|]. split; [exact E|]. rewrite Nat.sub_diag.
    apply list_find_Some. repeat split. intros j y _ Hj. lia.
Qed.

(** X15. After [updateCondition] the first condition of the given type
    carries the requested status, reason and message.  It is the
    condition that was there if these three were already its own, and
    otherwise a new one stamped with the current time. *)
Theorem updateCondition_records_condition (conditions : list Condition) (now : Z) :
  exists i c,
    list_find (fun c => Type_ c = conditionType)
      (updateCondition conditions conditionType status reason message now)
    = Some (i, c)
    /\ Status c = status /\ Reason c = reason /\ Message c = message
    /\ c = match list_find (fun c => Type_ c = conditionType) conditions with
           | Some (_, old) =>
               if conditionChanged old status reason message
               then newCondition conditionType status reason message now
               else old
           | None => newCondition conditionType status reason message now
           end.
Proof.
  destruct (updateCondition_find conditions now) as [i Hfind].
  eexists i, _. split; [exact Hfind|].
  enough (Hsame : conditionChanged
            match list_find (fun c => Type_ c = conditionType) conditions with
            | Some (_, old) =>
                if conditionChanged old status reason message
                then newCondition conditionType status reason message now
                else old
            | None => newCondition conditionType status reason message now
            end status reason message = false).
  { apply conditionChanged_false in Hsame as (Hs & Hr & Hm).
    repeat split; assumption. }
  destruct (list_find _ conditions) as [[j old]|];
    [|apply conditionChanged_newCondition].
  destruct (conditionChanged old status reason message) eqn:Hold;
    [apply conditionChanged_newCondition | exact Hold].
Qed.

Lemma hasType_find (conditions : list Condition) :
  hasType conditions conditionType
  = match list_find (fun c => Type_ c = conditionType) conditions with
    | Some _ => true
    | None => false
    end.
Proof.
  unfold hasType. induction conditions as [|c conditions IH]; [reflexivity|].
  cbn [existsb list_find]. rewrite IH.
  destruct (decide (Type_ c = conditionType)) as [->|Hne].
  - now rewrite String.eqb_refl.
  - apply String.eqb_neq in Hne. rewrite Hne. cbn [orb].
    now destruct (list_find _ conditions).
Qed.

Lemma map_insert {A B : Type} (f : A -> B) (l : list A) : forall i x,
  map f (<[i := x]> l) = <[i := f x]> (map f l).
Proof.
  induction l as [|y l IH]; intros [|i] x; cbn; [reflexivity .. |].
  now rewrite IH.
Qed.

Lemma map_lookup {A B : Type} (f : A -> B) (l : list A) : forall i x,
  l !! i = Some x -> map f l !! i = Some (f x).
Proof.
  induction l as [|y l IH]; intros [|i] x; cbn; try discriminate.
  - now intros [= ->].
  - apply IH.
Qed.

(** X16. [updateCondition] never removes or moves a condition and never
    adds a second one of a type that is present: the types of the
    conditions stay as they are, with the given type added at the end if
    it was absent, and the conditions of every other type are left in
    place unchanged. *)
Theorem updateCondition_keeps_the_other_conditions
    (conditions : list Condition) (now : Z) :
  let result := updateCondition conditions conditionType status reason message now in
  map Type_ result
  = (if hasType conditions conditionType then map Type_ conditions
     else map Type_ conditions ++ [conditionType])
  /\ (forall j c, conditions !! j = Some c -> Type_ c <> conditionType ->
                  result !! j = Some c).
Proof.
  intros result. subst result. rewrite hasType_find. unfold updateCondition.
  destruct (list_find _ conditions) as [[i old]|] eqn:E.
  - apply list_find_Some in E as (Hi & Hold & _).
    destruct (conditionChanged old status reason message); [|now split].
    split.
    + rewrite map_insert. cbn [Type_]. apply list_insert_id.
      rewrite <- Hold. now apply map_lookup.
    + intros j c Hj Hc. rewrite list_lookup_insert_ne; [exact Hj|].
      intros ->. congruence.
  - split; [now rewrite map_app|].
    intros j c Hj _. now apply lookup_app_l_Some.
Qed.

(** X17. Calling [updateCondition] again with the same status, reason and
    message changes nothing, whatever the time of the second call: the
    transition time recorded by the first call is kept. *)
Theorem repeated_updateCondition_changes_nothing
    (conditions : list Condition) (now later : Z) :
  updateCondition
    (updateCondition conditions conditionType status reason message now)
    conditionType status reason message later
  = updateCondition conditions conditionType status reason message now.
Proof.
  destruct (updateCondition_find conditions now) as [i Hfind].
  unfold updateCondition at 1. rewrite Hfind.
  assert (Hsame : conditionChanged
            match list_find (fun c => Type_ c = conditionType) conditions with
            | Some (_, old) =>
                if conditionChanged old status reason message
                then newCondition conditionType status reason message now
                else old
            | None => newCondition conditionType status reason message now
            end status reason message = false).
  { destruct (list_find _ conditions) as [[j old]|];
      [|apply conditionChanged_newCondition].
    destruct (conditionChanged old status reason message) eqn:Hold;
      [apply conditionChanged_newCondition | exact Hold]. }
  now rewrite Hsame.
Qed.

End ConditionFacts.

(** ** The next reconciliation *)

Lemma int64_small (z : Z) : (- 2 ^ 63 <= z < 2 ^ 63)%Z -> int64 z = z.
Proof. intros H. unfold int64. rewrite Z.mod_small; lia. Qed.

(** X18. A completed reconciliation asks to be run again after
    [IntervalSeconds] seconds when that number is positive, and after 300
    seconds when it is zero or negative, as long as the number of seconds
    is at most 9223372036, the largest whose nanoseconds fit 64 bits. *)
Theorem requeue_after_the_interval (spec : CrossplaneLabellerSpec) :
  (IntervalSeconds spec <= 9223372036)%Z ->
  requeueAfter spec
  = ((if (0 <? IntervalSeconds spec)%Z then IntervalSeconds spec else 300)
     * 1000000000)%Z.
Proof.
  intros Hmax. unfold requeueAfter, Second. apply int64_small.
  destruct (Z.ltb_spec 0 (IntervalSeconds spec)); lia.
Qed.

Lemma requeue_after_the_interval_witness :
  let spec := {| NamespaceSelector := ""; PodSelector := "";
                 Labels := [("team", "frontend")]; IntervalSeconds := 60 |} in
  (IntervalSeconds spec <= 9223372036)%Z
  /\ requeueAfter spec = 60000000000%Z.
Proof.
  intros spec. split; [subst spec; cbn; lia|].
  apply (requeue_after_the_interval spec). subst spec; cbn; lia.
Defined.

(** Beyond that bound the product wraps around: the delay of an interval
    of [2^55] seconds is zero, which asks for no further run. *)
Example requeue_wraps_around :
  requeueAfter {| NamespaceSelector := ""; PodSelector := "";
                  Labels := []; IntervalSeconds := 2 ^ 55 |} = 0%Z.
Proof. reflexivity. Qed.

(** ** Selecting pods *)

Section FetchFacts.

Context `{Regexps}.
Variables (client : Client) (spec : CrossplaneLabellerSpec).

Lemma fetchPodsFrom_step ns namespaces allPods :
  fetchPodsFrom client spec (ns :: namespaces) allPods
  = match ListPods client (Namespace_Name ns) with
    | None => Err ListFailed
    | Some items =>
        match podFilter (PodSelector spec) with
        | None => Err InvalidPattern
        | Some keep =>
            fetchPodsFrom client spec namespaces (allPods ++ List.filter keep items)
        end
    end.
Proof.
  cbn [fetchPodsFrom]. unfold podFilter.
  destruct (ListPods client (Namespace_Name ns)) as [items|]; [|reflexivity].
  destruct (String.eqb (PodSelector spec) ""); [now rewrite filter_all|].
  now destruct (Compile (PodSelector spec)).
Qed.

Lemma fetchPodsFrom_Ok namespaces : forall allPods pods,
  fetchPodsFrom client spec namespaces allPods = Ok pods
  <-> (namespaces = [] /\ pods = allPods)
      \/ exists keep,
           podFilter (PodSelector spec) = Some keep
           /\ List.Forall
                (fun ns => ListPods client (Namespace_Name ns) <> None) namespaces
           /\ pods = allPods
                     ++ flat_map (fun ns => List.filter keep (podsOf client ns))
                          namespaces.
Proof.
  induction namespaces as [|ns namespaces IH]; intros allPods pods.
  - cbn [fetchPodsFrom flat_map]. rewrite app_nil_r. split.
    + intros [= <-]. now left.
    + intros [[_ ->]|(keep & _ & _ & ->)]; reflexivity.
  - rewrite fetchPodsFrom_step. cbn [flat_map]. unfold podsOf at 1.
    destruct (ListPods client (Namespace_Name ns)) as [items|] eqn:Elist;
      cbn [default].
    + assert (Hns : ListPods client (Namespace_Name ns) <> None)
        by (rewrite Elist; discriminate).
      destruct (podFilter (PodSelector spec)) as [keep|] eqn:Ekeep.
      * rewrite IH. split.
        -- intros Hrest. right. exists keep. split; [reflexivity|].
           destruct Hrest as [[-> ->]|(keep' & [= <-] & Hall & ->)].
           ++ split; [now repeat constructor|].
              cbn [flat_map]. now rewrite !app_nil_r.
           ++ split; [now constructor|]. now rewrite app_assoc.
        -- intros [[Hnil _]|(keep' & [= <-] & Hall & ->)]; [discriminate|].
           right. exists keep. split; [reflexivity|].
           inversion Hall; subst. split; [assumption|]. now rewrite app_assoc.
      * split; [discriminate|].
        intros [[Hnil _]|(keep & Hkeep & _)]; discriminate.
    + split; [discriminate|].
      intros [[Hnil _]|(keep & _ & Hall & _)]; [discriminate|].
      inversion Hall; subst. congruence.
Qed.

(** X19. [fetchPods] succeeds exactly when every given namespace can be
    listed and the pod selector is empty or a valid pattern, or when no
    namespace is given at all.  It then returns, namespace after
    namespace in the given order, the listed pods whose names the
    selector matches (all of them for the empty selector). *)
Theorem fetchPods_succeeds_iff (namespaces : list Namespace) (pods : list Pod) :
  fetchPods client spec namespaces = Ok pods
  <-> (namespaces = [] /\ pods = [])
      \/ exists keep,
           podFilter (PodSelector spec) = Some keep
           /\ List.Forall
                (fun ns => ListPods client (Namespace_Name ns) <> None) namespaces
           /\ pods = flat_map (fun ns => List.filter keep (podsOf client ns))
                       namespaces.
Proof. unfold fetchPods. now rewrite fetchPodsFrom_Ok. Qed.

(** X20. A pod selector that is not a valid pattern is reported only if
    at least one namespace was selected: with such a selector [fetchPods]
    succeeds exactly on the empty list of namespaces. *)
Theorem invalid_pod_selector_passes_without_namespaces
    (namespaces : list Namespace) :
  PodSelector spec <> "" ->
  Compile (PodSelector spec) = None ->
  (exists pods, fetchPods client spec namespaces = Ok pods) <-> namespaces = [].
Proof.
  intros Hsel Hbad.
  assert (Hnone : podFilter (PodSelector spec) = None).
  { unfold podFilter. apply String.eqb_neq in Hsel. now rewrite Hsel, Hbad. }
  unfold fetchPods. split.
  - intros [pods Hok]. apply fetchPodsFrom_Ok in Hok as [[Hnil _]|(keep & Hkeep & _)];
      [exact Hnil | congruence].
  - intros ->. now exists [].
Qed.

End FetchFacts.

Lemma invalid_pod_selector_passes_without_namespaces_witness :
  let spec := {| NamespaceSelector := "backend"; PodSelector := "web-(";
                 Labels := [("team", "frontend")]; IntervalSeconds := 60 |} in
  PodSelector spec <> ""
  /\ @Compile literalPatterns (PodSelector spec) = None
  /\ @fetchNamespaces literalPatterns exampleClient spec = Ok []
  /\ ((exists pods, @fetchPods literalPatterns exampleClient spec [] = Ok pods)
      <-> @nil Namespace = []).
Proof.
  intros spec. split; [discriminate|]. split; [reflexivity|]. split; [reflexivity|].
  apply (@invalid_pod_selector_passes_without_namespaces
           literalPatterns exampleClient spec []); [discriminate | reflexivity].
Defined.

(** ** The pod reconciler *)

Section PodReconcilerFacts.

Lemma filter_keys_NoDup {A : Type} (keep : string * A -> bool) (l : list (string * A)) :
  List.NoDup (map fst l) -> List.NoDup (map fst (List.filter keep l)).
Proof.
  induction l as [|[k v] l IH]; cbn [List.filter map fst]; [constructor|].
  intros Hnd. inversion Hnd as [|? ? Hk Hl]; subst.
  destruct (keep (k, v)); [|now apply IH].
  cbn [map fst]. constructor; [|now apply IH].
  intros Hin. apply Hk. apply in_map_iff in Hin as ([k' v'] & Hk' & Hin).
  apply List.filter_In in Hin as [Hin _]. apply in_map_iff. now exists (k', v').
Qed.

Lemma workloadLabels_NoDup pod workloadName :
  List.NoDup (map fst (workloadLabels pod workloadName)).
Proof.
  unfold workloadLabels. apply filter_keys_NoDup. cbn [map fst].
  repeat (constructor; [cbn [In]; intros Hin; intuition discriminate|]).
  constructor.
Qed.

Lemma workloadLabels_In pod key v :
  In (key, v) (workloadLabels pod (workloadNameOf pod)) ->
  v <> "" /\ (key = "workload-name" \/ v = podLabel pod key).
Proof.
  unfold workloadLabels. intros Hin. apply List.filter_In in Hin as [Hin Hv].
  cbn [snd] in Hv. apply negb_true_iff, String.eqb_neq in Hv. split; [exact Hv|].
  cbn [In] in Hin.
  destruct Hin as [Hin|[Hin|[Hin|[Hin|[Hin|[Hin|[]]]]]]];
    injection Hin as <- <-; auto.
Qed.

(** The labels of the update [ApplyLabelsToResource] sends, if any. *)
Lemma sent_labels env h resource desired current gvr sent :
  List.NoDup (map fst desired) ->
  Get_ (dynamicClient env) (gvrOfResource resource) (GetName resource) = Some current ->
  In (gvr, sent) (updates (ApplyLabelsToResource env h resource desired)) ->
  forall key,
    Index (GetLabels sent) key
    = match Index desired key with
      | Some v => Some v
      | None => Index (GetLabels current) key
      end.
Proof.
  intros Hnd Hget Hin key. unfold ApplyLabelsToResource in Hin.
  destruct (mockMode h); [destruct Hin|]. rewrite Hget in Hin.
  pose proof (applyLabels_Index desired (GetLabels current) false key) as Hindex.
  destruct (fold_left applyLabel desired (GetLabels current, false))
    as [merged changed]. cbn [fst] in Hindex.
  destruct changed; cbn [negb updates In] in Hin; [|destruct Hin].
  destruct Hin as [[= _ <-]|[]]. cbn [SetLabels GetLabels]. rewrite Hindex.
  now rewrite <- (Index_Permutation desired (rev desired) key Hnd (Permutation_rev desired)).
Qed.

(** X21. Whatever order the label map of the pod reconciler is ranged
    in, the update it sends for a resource leaves every label whose pod
    label is missing or empty as the resource had it (the workload name
    apart), and it never gives a label the empty value. *)
Theorem pod_reconciler_writes_no_empty_label (env : Env) (h : CrossplaneHandler)
    (resource current sent : Unstructured) (pod : Pod)
    (desired : list (string * string)) (gvr : GroupVersionResource) :
  Permutation (workloadLabels pod (workloadNameOf pod)) desired ->
  Get_ (dynamicClient env) (gvrOfResource resource) (GetName resource) = Some current ->
  In (gvr, sent) (updates (ApplyLabelsToResource env h resource desired)) ->
  (forall key, key <> "workload-name" -> podLabel pod key = "" ->
     Index (GetLabels sent) key = Index (GetLabels current) key)
  /\ (forall key, Index (GetLabels sent) key = Some "" ->
        Index (GetLabels current) key = Some "").
Proof.
  intros Hperm Hget Hin.
  pose proof (workloadLabels_NoDup pod (workloadNameOf pod)) as Hnd.
  assert (Hnd' : List.NoDup (map fst desired)).
  { eapply Permutation_NoDup; [apply Permutation_map, Hperm | exact Hnd]. }
  pose proof (sent_labels env h resource desired current gvr sent Hnd' Hget Hin)
    as Hsent.
  assert (Hdesired : forall key v, Index desired key = Some v ->
            v <> "" /\ (key = "workload-name" \/ v = podLabel pod key)).
  { intros key v Hv.
    rewrite <- (Index_Permutation _ desired key Hnd Hperm) in Hv.
    now apply workloadLabels_In, Index_In. }
  split; intros key; rewrite Hsent.
  - intros Hkey Hempty. destruct (Index desired key) as [v|] eqn:Hv; [|reflexivity].
    destruct (Hdesired key v Hv) as [Hne [?| ->]]; congruence.
  - destruct (Index desired key) as [v|] eqn:Hv; [|tauto].
    intros [= ->]. now destruct (Hdesired key "" Hv).
Qed.

Lemma pod_reconciler_writes_no_empty_label_witness :
  let desired := [("department", "sales"); ("workload-name", "web-1")] in
  let sent := SetLabels web1 [("team", "frontend"); ("department", "sales");
                              ("workload-name", "web-1")] in
  updates (ApplyLabelsToResource exampleEnv (handler exampleState) web1 desired)
  = [(gvrOfResource web1, sent)]
  /\ (forall key, key <> "workload-name" -> podLabel examplePod key = "" ->
        Index (GetLabels sent) key = Index (GetLabels web1) key)
  /\ (forall key, Index (GetLabels sent) key = Some "" ->
        Index (GetLabels web1) key = Some "").
Proof.
  intros desired sent. split; [reflexivity|].
  apply (pod_reconciler_writes_no_empty_label exampleEnv (handler exampleState)
           web1 web1 sent examplePod desired (gvrOfResource web1)).
  - subst desired. vm_compute. apply perm_swap.
  - reflexivity.
  - subst desired sent. vm_compute. now left.
Defined.

End PodReconcilerFacts.

(** ** Mock mode *)

(** X22. In mock mode the handler neither reads nor writes the cluster:
    for every environment the finders return nothing, the network index
    is not built, no clock is read, and the applier reports success
    without sending an update. *)
Theorem mock_mode_never_uses_the_cluster (env : Env) (st : State)
    (namespace workloadName : string) (podIPs : list string)
    (resource : Unstructured) (labels : list (string * string)) :
  mockMode (handler st) = true ->
  FindCrossplaneResourcesForNamespaceWithNetworking env st namespace podIPs = ([], st)
  /\ FindCrossplaneResourcesForNamespace env st namespace = ([], st)
  /\ FindCrossplaneResourcesForWorkload env (handler st) workloadName = []
  /\ BuildNetworkMap env st = st
  /\ ApplyLabelsToResource env (handler st) resource labels
     = {| applyError := None; updates := [] |}.
Proof.
  intros Hmock.
  unfold FindCrossplaneResourcesForNamespaceWithNetworking,
    FindCrossplaneResourcesForNamespace,
    FindCrossplaneResourcesForNamespaceWithConfidence,
    FindCrossplaneResourcesForWorkload, BuildNetworkMap, ApplyLabelsToResource.
  rewrite !Hmock. rewrite orb_true_r. repeat split; reflexivity.
Qed.

Lemma mock_mode_never_uses_the_cluster_witness :
  let st := {| handler := NewCrossplaneHandler "demo-project" true; clockReads := 0 |} in
  mockMode (handler st) = true
  /\ FindCrossplaneResourcesForNamespaceWithNetworking exampleEnv st "billing" ["10.0.3.4"]
     = ([], st).
Proof.
  intros st. split; [reflexivity|].
  apply (mock_mode_never_uses_the_cluster exampleEnv st "billing" "web-1"
           ["10.0.3.4"] web1 [("team", "frontend")]).
  reflexivity.
Defined.
